(** * Expansion of the loss up to order four: a shallow embedding

    The notebook [T4-expansion.ipynb] trains a small classifier, computes the
    Hessian of the loss with respect to one kernel, selects two eigenvectors,
    rebuilds the network along these two directions ([CustomLayer], [model_c])
    and contracts the derivative tensors of orders two to four into scalar
    coefficients.

    Arithmetic is exact: the notebook's floating-point scalars are read as
    rational numbers ([Qc], canonical fractions, with Leibniz equality), so
    that every definition computes; the exponential and the logarithm of the
    cross-entropy are then two unspecified functions, and the statements
    hold whatever they are.  The layers are also read over the real numbers,
    with the real exponential and logarithm, to say what the derivatives
    taken by the gradient tape are derivatives of.  A tensor is its shape
    together with its entries in row-major order, which is how [tf.reshape]
    and NumPy see it.  An operation that raises in Python returns [None]
    here. *)

From Stdlib Require Import QArith Qcanon Reals Lra.
From stdpp Require Import base numbers list option.


(** ** Tensors *)

Record tensor (S : Type) : Type := Tensor { shape : list nat; data : list S }.
Arguments Tensor {S} _ _.
Arguments shape {S} _.
Arguments data {S} _.

(** Number of entries of a tensor of the given shape. *)
Definition numel (sh : list nat) : nat := foldr Nat.mul 1 sh.

Definition well_shaped {S} (t : tensor S) : Prop :=
  length (data t) = numel (shape t).

(** Row-major offset of a multi-index. *)
Fixpoint offset (sh : list nat) (idx : list nat) : nat :=
  match sh, idx with
  | _ :: sh', i :: idx' => i * numel sh' + offset sh' idx'
  | _, _ => 0
  end.

(** [t[i, j, ...]] for in-range indices. *)
Definition tget {S} (dflt : S) (t : tensor S) (idx : list nat) : S :=
  nth (offset (shape t) idx) (data t) dflt.

(** The entries [f i j] for [i < r], [j < n], row by row. *)
Definition tabulate2 {A} (r n : nat) (f : nat → nat → A) : list A :=
  flat_map (λ i, map (f i) (seq 0 n)) (seq 0 r).

(** [tf.stack([a, b, ...])] of vectors of the same length. *)
Definition tf_stack {S} (rows : list (list S)) : tensor S :=
  Tensor [length rows; length (hd [] rows)] (concat rows).

(** [tf.zeros(sh)]. *)
Definition tf_zeros (sh : list nat) : tensor Qc :=
  Tensor sh (replicate (numel sh) 0%Qc).

(** ** Direction selection (NumPy part)

<<
index = np.argmax(w<1e-6)
direction_vectors = tf.stack([v[:,index-1], v[:,index+1]])
nb_directions = direction_vectors.shape[0]
>> *)

Definition threshold : Qc := Q2Qc (1 # 1000000).

(** [w < c], elementwise. *)
Definition np_less (w : list Qc) (c : Qc) : list bool :=
  map (λ x, bool_decide (x < c)%Qc) w.

(** [np.argmax] scans for the first position holding the maximum; on
    booleans, [False < True]. *)
Fixpoint argmax_from (best : bool) (besti i : nat) (l : list bool) : nat :=
  match l with
  | [] => besti
  | b :: l' =>
      if negb best && b then argmax_from b i (S i) l'
      else argmax_from best besti (S i) l'
  end.

(** [np.argmax(mask)]; an empty array raises [ValueError]. *)
Definition np_argmax (mask : list bool) : option nat :=
  match mask with
  | [] => None
  | b :: l' => Some (argmax_from b 0 1 l')
  end.

(** NumPy's reading of an integer index on an axis of length [n]: negative
    indices count from the end, anything outside [-n, n) is an [IndexError]. *)
Definition np_index (n : nat) (j : Z) : option nat :=
  if decide (0 ≤ j < Z.of_nat n)%Z then Some (Z.to_nat j)
  else if decide (- Z.of_nat n ≤ j < 0)%Z then Some (Z.to_nat (j + Z.of_nat n))
  else None.

(** [v[:, j]] on a two-dimensional array. *)
Definition np_column (v : tensor Qc) (j : Z) : option (list Qc) :=
  match shape v with
  | [r; n] =>
      c ← np_index n j;
      Some (map (λ i, nth (i * n + c) (data v) 0%Qc) (seq 0 r))
  | _ => None
  end.

Definition select_directions (w : list Qc) (v : tensor Qc) : option (tensor Qc) :=
  index ← np_argmax (np_less w threshold);
  d1 ← np_column v (Z.of_nat index - 1);
  d2 ← np_column v (Z.of_nat index + 1);
  Some (tf_stack [d1; d2]).

Definition nb_directions (direction_vectors : tensor Qc) : nat :=
  hd 0 (shape direction_vectors).

(** Position of the first element that satisfies [p]. *)
Fixpoint first_index {A} (p : A → bool) (l : list A) : option nat :=
  match l with
  | [] => None
  | x :: l' => if p x then Some 0 else S <$> first_index p l'
  end.

(** The rule as the specification words it: the index of the first
    eigenvalue _exceeding_ the threshold, then the eigenvectors next to
    it. *)
Definition spec_index (w : list Qc) : option nat :=
  first_index (λ x, bool_decide (threshold < x)%Qc) w.

Definition spec_select_directions (w : list Qc) (v : tensor Qc) : option (tensor Qc) :=
  idx ← spec_index w;
  d1 ← np_column v (Z.of_nat idx - 1);
  d2 ← np_column v (Z.of_nat idx + 1);
  Some (tf_stack [d1; d2]).

(** A spectrum with its two clusters, and its eigenvectors: what
    [np.linalg.eig] returns on the diagonal matrix [diag(1, 1/2, 0, 0)]. *)
Definition w_gap : list Qc := [1; Q2Qc (1 # 2); 0; 0]%Qc.
Definition v_gap : tensor Qc :=
  Tensor [4; 4] [1; 0; 0; 0;  0; 1; 0; 0;  0; 0; 1; 0;  0; 0; 0; 1]%Qc.

(** The same at the size of the notebook, where the Hessian is 256 × 256:
    the decomposition of the diagonal matrix with 128 ones followed by 128
    zeros, and of the one with 255 ones followed by a single zero.  The
    eigenvectors are the columns of the identity. *)
Definition eye (n : nat) : tensor Qc :=
  Tensor [n; n] (tabulate2 n n (λ i j, if decide (i = j) then 1%Qc else 0%Qc)).

Definition w_half : list Qc := replicate 128 1%Qc ++ replicate 128 0%Qc.
Definition w_last : list Qc := replicate 255 1%Qc ++ [0%Qc].

(** Python's [l[i]] on a list, negative indices included. *)
Definition py_index {A} (l : list A) (i : Z) : option A :=
  k ← np_index (length l) i; l !! k.

(** ** Scalars

    The layers are written once, over any type of scalars offering the
    operations the framework applies to them.  They run on numbers ([Qc]) and,
    under a gradient tape, on the expressions the tape records ([expr]
    below). *)

Class Scalar (S : Type) : Type := {
  sconst : Qc → S;
  sadd : S → S → S;
  smul : S → S → S;
  srelu : S → S
}.

(** Exponential and logarithm, used by the cross-entropy only. *)
Class Transcendental (S : Type) : Type := {
  sexp : S → S;
  slog : S → S
}.

(** [tf.nn.relu] on a number: [max(x, 0)]. *)
Definition Qc_relu (x : Qc) : Qc := if bool_decide (0 < x)%Qc then x else 0%Qc.

#[export] Instance Qc_scalar : Scalar Qc :=
  {| sconst := λ c, c; sadd := Qcplus; smul := Qcmult; srelu := Qc_relu |}.

(** ** Tensor operations of the framework *)

Section TensorOps.
Context {F : Type} `{Scalar F}.

Definition ssum (l : list F) : F := foldr sadd (sconst 0%Qc) l.

(** Entry at a row-major position. *)
Definition tnth (t : tensor F) (i : nat) : F := nth i (data t) (sconst 0%Qc).

Definition tmap {T} (f : F → T) (t : tensor F) : tensor T :=
  Tensor (shape t) (map f (data t)).

(** [tf.reshape(t, sh)]: the entries stay in place; the sizes must agree. *)
Definition tf_reshape (t : tensor F) (sh : list nat) : option (tensor F) :=
  if decide (numel sh = length (data t)) then Some (Tensor sh (data t)) else None.

(** [c * t] for a Python number [c]. *)
Definition tf_scale (c : F) (t : tensor F) : tensor F := tmap (smul c) t.

(** [tf.matmul(a, b)] on matrices. *)
Definition tf_matmul (a b : tensor F) : option (tensor F) :=
  match shape a, shape b with
  | [r; m], [m'; n] =>
      if decide (m = m') then
        Some (Tensor [r; n]
                (tabulate2 r n (λ i j,
                   ssum (map (λ k, smul (tnth a (i * m + k)) (tnth b (k * n + j)))
                           (seq 0 m)))))
      else None
  | _, _ => None
  end.

(** [a + b], for the two uses the notebook makes of it: equal shapes, and
    a vector added to every row of a matrix. *)
Definition tf_add (a b : tensor F) : option (tensor F) :=
  if decide (shape a = shape b) then
    Some (Tensor (shape a) (zip_with sadd (data a) (data b)))
  else
    match shape a, shape b with
    | [r; n], [n'] =>
        if decide (n = n') then
          Some (Tensor [r; n]
                  (tabulate2 r n (λ i j, sadd (tnth a (i * n + j)) (tnth b j))))
        else None
    | _, _ => None
    end.

(** [tf.tensordot(a, b, [axes_a, axes_b])] where the contracted axes are
    the leading ones of both tensors, in order, as in every call of the
    notebook: [[0],[0]], [[0,1],[0,1]], ... *)
Definition tf_tensordot (a b : tensor F) (axes_a axes_b : list nat) : option (tensor F) :=
  let r := length axes_a in
  if decide (axes_a = seq 0 r ∧ axes_b = seq 0 r ∧
             r ≤ length (shape a) ∧ r ≤ length (shape b) ∧
             take r (shape a) = take r (shape b)) then
    let K := numel (take r (shape a)) in
    let A := numel (drop r (shape a)) in
    let B := numel (drop r (shape b)) in
    Some (Tensor (drop r (shape a) ++ drop r (shape b))
            (tabulate2 A B (λ α β,
               ssum (map (λ k, smul (tnth a (k * A + α)) (tnth b (k * B + β)))
                       (seq 0 K)))))
  else None.

End TensorOps.

(** ** Layers *)

(** The activations in use: ['relu'], or none. *)
Inductive activation : Type := relu.

Inductive layer (F : Type) : Type :=
| Flatten
| Dense (units : nat) (act : option activation)
        (weights : option (tensor F * tensor F))
| CustomLayer (x_star : tensor F * tensor F) (direction_vectors : tensor F)
              (act : option activation) (kernel : option (tensor F)).
Arguments Flatten {F}.
Arguments Dense {F} _ _ _.
Arguments CustomLayer {F} _ _ _ _.

Section Layers.
Context {F : Type} `{Scalar F}.

Definition apply_activation (act : option activation) (t : tensor F) : tensor F :=
  match act with
  | None => t
  | Some relu => tmap srelu t
  end.

(** Weights are created at the layer's first call; their initial values
    are the initializer's business: [init id p] is entry [p] of weight
    number [id]. *)
Definition fresh (init : nat → nat → F) (id : nat) (sh : list nat) : tensor F :=
  Tensor sh (map (init id) (seq 0 (numel sh))).

(** <<
class CustomLayer(tf.keras.layers.Layer):
  def __init__(self, x_star, direction_vectors, activation=None):
    super(CustomLayer, self).__init__()
    self.x_star = x_star # x_star[0] is the kernel matrix and x_star[1] is the bias
    self.direction_vectors = tf.reshape(direction_vectors,
        [direction_vectors.shape[0], x_star[0].shape[0], x_star[0].shape[1]])
    self.activation = activation

  def build(self, input_shape):
    self.kernel = self.add_weight('kernel', shape = [direction_vectors.shape[0],])

  def call(self, inputs):
    outputs = tf.matmul(inputs, self.x_star[0]
                + tf.tensordot(self.kernel, self.direction_vectors, axes=[[0],[0]]))
              + self.x_star[1]
    if self.activation is not None:
        outputs = self.activation(outputs)
    return outputs
>> *)
Definition CustomLayer_init (x_star : tensor F * tensor F)
    (direction_vectors : tensor F) (act : option activation) : option (layer F) :=
  match shape direction_vectors, shape (x_star.1) with
  | k :: _, m :: n :: _ =>
      d ← tf_reshape direction_vectors [k; m; n];
      Some (CustomLayer x_star d act None)
  | _, _ => None
  end.

(** [build(input_shape)]: a layer that has its weights keeps them.  A
    [Dense] layer is built on a batch of vectors, which is what [Flatten]
    and the other layers hand it.  [CustomLayer.build] takes the number of
    coordinates from the notebook's global [direction_vectors], the tensor
    the layer was constructed with. *)
Definition build (init : nat → nat → F) (k : nat) (input_shape : list nat)
    (l : layer F) : option (layer F) :=
  match l with
  | Flatten => Some Flatten
  | Dense u act None =>
      match input_shape with
      | [_; d] =>
          Some (Dense u act (Some (fresh init (2 * k) [d; u], fresh init (2 * k + 1) [u])))
      | _ => None
      end
  | Dense _ _ (Some _) => Some l
  | CustomLayer xs d act None =>
      Some (CustomLayer xs d act (Some (fresh init (2 * k) [hd 0 (shape d)])))
  | CustomLayer _ _ _ (Some _) => Some l
  end.

(** [call(inputs)] of a built layer. *)
Definition call (l : layer F) (inputs : tensor F) : option (tensor F) :=
  match l with
  | Flatten =>
      match shape inputs with
      | b :: rest => Some (Tensor [b; numel rest] (data inputs))
      | [] => None
      end
  | Dense _ act (Some (kernel, bias)) =>
      y ← tf_matmul inputs kernel;
      outputs ← tf_add y bias;
      Some (apply_activation act outputs)
  | CustomLayer x_star direction_vectors act (Some kernel) =>
      t ← tf_tensordot kernel direction_vectors [0] [0];
      w ← tf_add (x_star.1) t;
      y ← tf_matmul inputs w;
      outputs ← tf_add y (x_star.2);
      Some (apply_activation act outputs)
  | _ => None
  end.

(** [layer.weights], [layer.trainable_weights]: the frozen tensors held by
    a [CustomLayer] are constants, not weights. *)
Definition get_weights (l : layer F) : list (tensor F) :=
  match l with
  | Dense _ _ (Some (kernel, bias)) => [kernel; bias]
  | CustomLayer _ _ _ (Some kernel) => [kernel]
  | _ => []
  end.

(** [layer.set_weights(ws)]: as many tensors as the layer has weights, of
    the same shapes, or [ValueError]. *)
Definition set_weights (l : layer F) (ws : list (tensor F)) : option (layer F) :=
  match l, ws with
  | Dense u act (Some (kernel, bias)), [kernel'; bias'] =>
      if decide (shape kernel' = shape kernel ∧ shape bias' = shape bias)
      then Some (Dense u act (Some (kernel', bias'))) else None
  | CustomLayer xs d act (Some kernel), [kernel'] =>
      if decide (shape kernel' = shape kernel)
      then Some (CustomLayer xs d act (Some kernel')) else None
  | Flatten, [] | Dense _ _ None, [] | CustomLayer _ _ _ None, [] => Some l
  | _, _ => None
  end.

(** A [tf.keras.Sequential] model is the list of its layers. *)

(** The forward pass of a built model. *)
Fixpoint call_model (model : list (layer F)) (x : tensor F) : option (tensor F) :=
  match model with
  | [] => Some x
  | l :: model' => y ← call l x; call_model model' y
  end.

(** The first call, [model(x)], which builds each layer in turn from the
    shape of what reaches it. *)
Fixpoint first_call_from (init : nat → nat → F) (k : nat) (model : list (layer F))
    (x : tensor F) : option (list (layer F) * tensor F) :=
  match model with
  | [] => Some ([], x)
  | l :: model' =>
      l' ← build init k (shape x) l;
      y ← call l' x;
      '(built, out) ← first_call_from init (S k) model' y;
      Some (l' :: built, out)
  end.

Definition first_call init model x := first_call_from init 0 model x.

(** [model.trainable_variables]. *)
Definition trainable_variables (model : list (layer F)) : list (tensor F) :=
  flat_map get_weights model.

(** [model.layers[k].set_weights(ws)]. *)
Definition set_layer_weights (model : list (layer F)) (k : nat)
    (ws : list (tensor F)) : option (list (layer F)) :=
  l ← model !! k; l' ← set_weights l ws; Some (<[k := l']> model).

(** <<
loss_object = tf.keras.losses.SparseCategoricalCrossentropy(from_logits=True)

def loss(model, x, y):
  y_ = model(x)
  return loss_object(y_true=y, y_pred=y_)
>>
    The cross-entropy of the logits [z] of an example with label [y] is
    [log (sum_c exp z_c) - z_y]; the loss is the mean over the batch. *)
Context `{Transcendental F}.

Definition loss_object (y_true : list nat) (y_pred : tensor F) : option F :=
  match shape y_pred with
  | [b; c] =>
      if decide (length y_true = b) then
        Some (smul (sconst (/ Q2Qc (inject_Z (Z.of_nat b)))%Qc)
                (ssum (imap (λ i y,
                   sadd (slog (ssum (map (λ j, sexp (tnth y_pred (i * c + j))) (seq 0 c))))
                        (smul (sconst (- (1))%Qc) (tnth y_pred (i * c + y))))
                   y_true)))
      else None
  | _ => None
  end.

Definition loss (model : list (layer F)) (x : tensor F) (y : list nat) : option F :=
  y_ ← call_model model x; loss_object y y_.

End Layers.

(** ** The gradient tape

    [tf.GradientTape] belongs to the framework, not to the notebook.  It is
    modelled by what it computes in exact arithmetic: inside [with
    tf.GradientTape()] every operation on a trainable variable is recorded,
    so the value computed there is an expression in the entries of the
    variables ([Var v p]: entry [p] of the model's trainable variable number
    [v]); [gradient] and [jacobian] differentiate this expression by the chain
    rule, and their result is again an expression, which an enclosing tape
    differentiates further.  As in the framework, the derivative of [relu] is
    the step function, whose own derivative is zero. *)

Inductive expr : Type :=
| Const (c : Qc)
| Var (v p : nat)
| Add (a b : expr)
| Mul (a b : expr)
| Relu (a : expr)
| Step (a : expr)
| Exp (a : expr)
| Log (a : expr)
| Inv (a : expr).

#[export] Instance expr_scalar : Scalar expr :=
  {| sconst := Const; sadd := Add; smul := Mul; srelu := Relu |}.

#[export] Instance expr_transcendental : Transcendental expr :=
  {| sexp := Exp; slog := Log |}.

(** Partial derivative with respect to entry [x.2] of variable [x.1]. *)
Fixpoint deriv (e : expr) (x : nat * nat) : expr :=
  match e with
  | Const _ => Const 0%Qc
  | Var v p => if decide ((v, p) = x) then Const 1%Qc else Const 0%Qc
  | Add a b => Add (deriv a x) (deriv b x)
  | Mul a b => Add (Mul (deriv a x) b) (Mul a (deriv b x))
  | Relu a => Mul (Step a) (deriv a x)
  | Step _ => Const 0%Qc
  | Exp a => Mul (Exp a) (deriv a x)
  | Log a => Mul (Inv a) (deriv a x)
  | Inv a => Mul (Mul (Const (- (1))%Qc) (Mul (Inv a) (Inv a))) (deriv a x)
  end.

Definition Qc_step (x : Qc) : Qc := if bool_decide (0 < x)%Qc then 1%Qc else 0%Qc.

Section Eval.
(** The exponential and the logarithm of the framework, on numbers. *)
Variables fexp flog : Qc → Qc.


(** Value of a recorded expression when the variables hold [ρ]. *)
Fixpoint eval (ρ : nat → nat → Qc) (e : expr) : Qc :=
  match e with
  | Const c => c
  | Var v p => ρ v p
  | Add a b => (eval ρ a + eval ρ b)%Qc
  | Mul a b => (eval ρ a * eval ρ b)%Qc
  | Relu a => Qc_relu (eval ρ a)
  | Step a => Qc_step (eval ρ a)
  | Exp a => fexp (eval ρ a)
  | Log a => flog (eval ρ a)
  | Inv a => (/ eval ρ a)%Qc
  end.

(** What the variables of a model hold. *)
Definition env_of (model : list (layer Qc)) : nat → nat → Qc :=
  λ v p, match trainable_variables model !! v with
         | Some t => nth p (data t) 0%Qc
         | None => 0%Qc
         end.

(** The model as the tape sees it: trainable variable number [v] has
    become the tensor of the [Var v p]; everything else is a constant. *)
Definition tvar (v : nat) (t : tensor Qc) : tensor expr :=
  Tensor (shape t) (map (Var v) (seq 0 (length (data t)))).

Definition tconst (t : tensor Qc) : tensor expr := tmap Const t.

Definition watch_layer (c : nat) (l : layer Qc) : layer expr :=
  match l with
  | Flatten => Flatten
  | Dense u act None => Dense u act None
  | Dense u act (Some (kernel, bias)) =>
      Dense u act (Some (tvar c kernel, tvar (S c) bias))
  | CustomLayer (w, b) d act None =>
      CustomLayer (tconst w, tconst b) (tconst d) act None
  | CustomLayer (w, b) d act (Some kernel) =>
      CustomLayer (tconst w, tconst b) (tconst d) act (Some (tvar c kernel))
  end.

Fixpoint watch_from (c : nat) (model : list (layer Qc)) : list (layer expr) :=
  match model with
  | [] => []
  | l :: model' =>
      watch_layer c l :: watch_from (c + length (get_weights l)) model'
  end.

Definition watch (model : list (layer Qc)) : list (layer expr) :=
  watch_from 0 model.

(** [g.gradient(target, source)] for a scalar target and a variable. *)
Definition gradient (target : expr) (source : tensor expr) : tensor expr :=
  tmap (λ x, match x with
             | Var v p => deriv target (v, p)
             | _ => Const 0%Qc
             end) source.

(** [g.jacobian(target, source)]: of shape [target.shape + source.shape]. *)
Definition jacobian (target source : tensor expr) : tensor expr :=
  Tensor (shape target ++ shape source)
    (flat_map (λ e, data (gradient e source)) (data target)).

(** <<
def T2_compute(model, inputs, targets, nb):
    with tf.GradientTape() as g1:
        with tf.GradientTape() as g2:
            loss_value = loss(model, inputs, targets)
        grads = g2.gradient(loss_value, model.trainable_variables[nb])
    hess_matrix = g1.jacobian(grads, model.trainable_variables[nb])
    return hess_matrix
>> *)
Definition T2_compute (model : list (layer Qc)) (inputs : tensor Qc)
    (targets : list nat) (nb : Z) : option (tensor Qc) :=
  let tape := watch model in
  loss_value ← loss tape (tconst inputs) targets;
  x ← py_index (trainable_variables tape) nb;
  let grads := gradient loss_value x in
  let hess_matrix := jacobian grads x in
  Some (tmap (eval (env_of model)) hess_matrix).

(** <<
def T4_compute(model, inputs, targets, nb):
    with tf.GradientTape() as g1:
        with tf.GradientTape() as g2:
            with tf.GradientTape() as g3:
                with tf.GradientTape() as g4:
                    loss_value = loss(model, inputs, targets)
                grads = g4.gradient(loss_value, model.trainable_variables[nb])
            hess_matrix = g3.jacobian(grads, model.trainable_variables[nb])
        tensor_3 = g2.jacobian(hess_matrix, model.trainable_variables[nb])
    tensor_4 = g1.jacobian(tensor_3, model.trainable_variables[nb])
    return hess_matrix, tensor_3, tensor_4
>> *)
Definition T4_compute (model : list (layer Qc)) (inputs : tensor Qc)
    (targets : list nat) (nb : Z)
    : option (tensor Qc * tensor Qc * tensor Qc) :=
  let tape := watch model in
  loss_value ← loss tape (tconst inputs) targets;
  x ← py_index (trainable_variables tape) nb;
  let grads := gradient loss_value x in
  let hess_matrix := jacobian grads x in
  let tensor_3 := jacobian hess_matrix x in
  let tensor_4 := jacobian tensor_3 x in
  let ρ := env_of model in
  Some (tmap (eval ρ) hess_matrix, tmap (eval ρ) tensor_3, tmap (eval ρ) tensor_4).

(** <<
hessian = T2_compute(model, features, labels, -4)
hessian = tf.reshape(hessian, [hessian.shape[0]*hessian.shape[1],
                             hessian.shape[0]*hessian.shape[1]])
>> *)
Definition hessian (model : list (layer Qc)) (features : tensor Qc)
    (labels : list nat) : option (tensor Qc) :=
  h ← T2_compute model features labels (-4);
  s0 ← shape h !! 0; s1 ← shape h !! 1;
  tf_reshape h [s0 * s1; s0 * s1].

End Eval.

(** A layer of the tape read back as a layer on numbers, by [f] on each of
    its tensors. *)
Definition layer_map {A B} (f : tensor A → tensor B) (l : layer A) : layer B :=
  match l with
  | Flatten => Flatten
  | Dense u act ws => Dense u act ((λ '(k, b), (f k, f b)) <$> ws)
  | CustomLayer (w, b) d act k => CustomLayer (f w, f b) (f d) act (f <$> k)
  end.

(** ** The recorded expressions as real functions

    In which sense [deriv] differentiates: read over the real numbers, with
    the real exponential and logarithm, an expression is a function of the
    values of the variables, and [deriv e x] is its partial derivative with
    respect to [x] (theorem [deriv_is_derivative] below) at every point where
    no [relu] sits at its kink and every logarithm and inverse is defined. *)

Definition Qc2R (c : Qc) : R := Q2R (this c).

Definition R_step (x : R) : R := if Rlt_dec 0 x then 1%R else 0%R.

Fixpoint evalR (ρ : nat → nat → R) (e : expr) : R :=
  match e with
  | Const c => Qc2R c
  | Var v p => ρ v p
  | Add a b => (evalR ρ a + evalR ρ b)%R
  | Mul a b => (evalR ρ a * evalR ρ b)%R
  | Relu a => Rmax 0 (evalR ρ a)
  | Step a => R_step (evalR ρ a)
  | Exp a => exp (evalR ρ a)
  | Log a => ln (evalR ρ a)
  | Inv a => (/ evalR ρ a)%R
  end.



#[export] Instance R_scalar : Scalar R :=
  {| sconst := Qc2R; sadd := Rplus; smul := Rmult; srelu := Rmax 0 |}.

#[export] Instance R_transcendental : Transcendental R :=
  {| sexp := exp; slog := ln |}.

(** The network over the reals whose trainable variables hold the values
    [ρ]; its inputs and the frozen tensors of a custom layer are those of
    [model]. *)
Definition network_at (ρ : nat → nat → R) (model : list (layer Qc)) : list (layer R) :=
  map (layer_map (tmap (evalR ρ))) (watch model).


(** ** The notebook's models *)

(** <<
model = tf.keras.Sequential([
  tf.keras.layers.Flatten(),
  tf.keras.layers.Dense(16, activation='relu'),
  tf.keras.layers.Dense(16, activation='relu'),
  tf.keras.layers.Dense(10)
])
>>
    after [model.fit]: the layers are built and hold whatever the optimizer
    left in them. *)
Definition fitted_model (k1 b1 k2 b2 k3 b3 : tensor Qc) : list (layer Qc) :=
  [ Flatten;
    Dense 16 (Some relu) (Some (k1, b1));
    Dense 16 (Some relu) (Some (k2, b2));
    Dense 10 None (Some (k3, b3)) ].

(** The shapes the weights of [model] have on inputs with [d] entries per
    example. *)
Definition fitted_shapes (d : nat) (k1 b1 k2 b2 k3 b3 : tensor Qc) : Prop :=
  shape k1 = [d; 16] ∧ shape b1 = [16] ∧
  shape k2 = [16; 16] ∧ shape b2 = [16] ∧
  shape k3 = [16; 10] ∧ shape b3 = [10] ∧
  well_shaped k1 ∧ well_shaped b1 ∧ well_shaped k2 ∧ well_shaped b2 ∧
  well_shaped k3 ∧ well_shaped b3.

(** [x_star = [[weight for weight in layer.weights] for layer in model.layers]] *)
Definition x_star_of (model : list (layer Qc)) : list (list (tensor Qc)) :=
  map get_weights model.

Definition nb_layer : nat := 2.

(** <<
model_c = tf.keras.Sequential([
  tf.keras.layers.Flatten(),
  tf.keras.layers.Dense(16, activation='relu'),
  CustomLayer([tf.convert_to_tensor(x_star[-2][0]),
               tf.convert_to_tensor(x_star[-2][1])], direction_vectors),
  tf.keras.layers.Dense(10)
])
>> *)
Definition model_c_layers (x_star : list (list (tensor Qc)))
    (direction_vectors : tensor Qc) : option (list (layer Qc)) :=
  ws ← py_index x_star (-2);
  w ← py_index ws 0;
  b ← py_index ws 1;
  custom ← CustomLayer_init (w, b) direction_vectors None;
  Some [Flatten; Dense 16 (Some relu) None; custom; Dense 10 None None].

(** <<
for k in [i for i in range(len(model_c.layers)) if i != nb_layer]:
    model_c.layers[k].set_weights(x_star[k])
>> *)
Fixpoint assign_weights (x_star : list (list (tensor Qc))) (ks : list nat)
    (model : list (layer Qc)) : option (list (layer Qc)) :=
  match ks with
  | [] => Some model
  | k :: ks' =>
      ws ← x_star !! k;
      model' ← set_layer_weights model k ws;
      assign_weights x_star ks' model'
  end.

(** <<
model_c(features) # only for building the model
nb_layer = 2
for k in ...: ...
model_c.layers[nb_layer].set_weights([tf.zeros([nb_directions,])])
>> *)
Definition make_model_c (init : nat → nat → Qc) (x_star : list (list (tensor Qc)))
    (direction_vectors : tensor Qc) (features : tensor Qc)
    : option (list (layer Qc)) :=
  layers ← model_c_layers x_star direction_vectors;
  '(built, _) ← first_call init layers features;
  assigned ← assign_weights x_star
                (filter (λ i, i ≠ nb_layer) (seq 0 (length built))) built;
  set_layer_weights assigned nb_layer [tf_zeros [nb_directions direction_vectors]].

(** ** Coefficients of the expansion

<<
e = tf.constant([1.,0.])
f = tf.constant([0.,1.])

e2 = tf.tensordot(tf.reshape(e, [1,2]), tf.reshape(e, [1,2]), [[0], [0]])
coeff_T2 = 0.5 * tf.tensordot(T2, e2, [[0,1], [0,1]])

f2 = tf.tensordot(tf.reshape(f, [1,2]), tf.reshape(f, [1,2]), [[0], [0]])
ef2 = tf.tensordot(tf.reshape(e, [1,2]), tf.reshape(f2, [1,2,2]), [[0], [0]])
coeff_T3 = 0.5 * tf.tensordot(T3, ef2, [[0,1,2], [0,1,2]])

f4 = tf.tensordot(tf.reshape(f2, [1,2,2]), tf.reshape(f2, [1,2,2]), [[0], [0]])
coeff_T4 = (1./24.) * tf.tensordot(T4, f4, [[0,1,2,3], [0,1,2,3]])
>> *)
Definition e : tensor Qc := Tensor [2] [1; 0]%Qc.
Definition f : tensor Qc := Tensor [2] [0; 1]%Qc.

Definition e2 : option (tensor Qc) :=
  a ← tf_reshape e [1; 2]; b ← tf_reshape e [1; 2]; tf_tensordot a b [0] [0].

Definition coeff_T2 (T2 : tensor Qc) : option (tensor Qc) :=
  k ← e2; c ← tf_tensordot T2 k [0; 1] [0; 1];
  Some (tf_scale (Q2Qc (1 # 2)) c).

Definition f2 : option (tensor Qc) :=
  a ← tf_reshape f [1; 2]; b ← tf_reshape f [1; 2]; tf_tensordot a b [0] [0].

Definition ef2 : option (tensor Qc) :=
  f2' ← f2;
  a ← tf_reshape e [1; 2]; b ← tf_reshape f2' [1; 2; 2]; tf_tensordot a b [0] [0].

Definition coeff_T3 (T3 : tensor Qc) : option (tensor Qc) :=
  k ← ef2; c ← tf_tensordot T3 k [0; 1; 2] [0; 1; 2];
  Some (tf_scale (Q2Qc (1 # 2)) c).

Definition f4 : option (tensor Qc) :=
  f2' ← f2;
  a ← tf_reshape f2' [1; 2; 2]; b ← tf_reshape f2' [1; 2; 2]; tf_tensordot a b [0] [0].

Definition coeff_T4 (T4 : tensor Qc) : option (tensor Qc) :=
  k ← f4; c ← tf_tensordot T4 k [0; 1; 2; 3] [0; 1; 2; 3];
  Some (tf_scale (Q2Qc (1 # 24)) c).

(** The layers of [model_c] when the custom layer holds the coordinates
    [t]; [make_model_c] returns them with [t = (0, 0)] (lemma
    [make_model_c_fitted] below). *)
Definition model_c_at (k1 b1 k2 b2 k3 b3 direction_vectors : tensor Qc)
    (act : option activation) (t : tensor Qc) : list (layer Qc) :=
  [ Flatten;
    Dense 16 (Some relu) (Some (k1, b1));
    CustomLayer (k2, b2) (Tensor [2; 16; 16] (data direction_vectors)) act (Some t);
    Dense 10 None (Some (k3, b3)) ].

(** ** A concrete run

    One black 28 × 28 image, and weights a training run may end on: the
    first layer outputs 1 on every unit, the second kernel is -1
    throughout, and the last kernel sends every unit to the class number
    (entry [(i, c)] is [c]).  The two direction vectors are the first two
    basis vectors of the 256-dimensional kernel space. *)
Definition const_tensor (sh : list nat) (c : Qc) : tensor Qc :=
  Tensor sh (replicate (numel sh) c).

Definition ex_features : tensor Qc := const_tensor [1; 28; 28; 1] 0%Qc.
Definition ex_labels : list nat := [3].
Definition ex_k1 : tensor Qc := const_tensor [784; 16] 0%Qc.
Definition ex_b1 : tensor Qc := const_tensor [16] 1%Qc.
Definition ex_k2 : tensor Qc := const_tensor [16; 16] (- (1))%Qc.
Definition ex_b2 : tensor Qc := const_tensor [16] 0%Qc.
Definition ex_k3 : tensor Qc :=
  Tensor [16; 10] (tabulate2 16 10 (λ _ c, Q2Qc (inject_Z (Z.of_nat c)))).
Definition ex_b3 : tensor Qc := const_tensor [10] 0%Qc.
Definition ex_directions : tensor Qc :=
  Tensor [2; 256]
    ((1%Qc :: replicate 255 0%Qc) ++ (0%Qc :: 1%Qc :: replicate 254 0%Qc)).

Definition ex_model : list (layer Qc) :=
  fitted_model ex_k1 ex_b1 ex_k2 ex_b2 ex_k3 ex_b3.

Definition ex_model_c : list (layer Qc) :=
  model_c_at ex_k1 ex_b1 ex_k2 ex_b2 ex_k3 ex_b3 ex_directions None (tf_zeros [2]).

(** ** The data

<<
(features, labels), _ = tf.keras.datasets.mnist.load_data()
features = features / 255.0
features = features.reshape((features.shape[0],28,28,1))
>>
    The images of the dataset are arrays of pixels, integers from 0 to
    255. *)

(** [a / c] for a Python number [c], entry by entry. *)
Definition np_divide (a : tensor Qc) (c : Qc) : tensor Qc :=
  tmap (λ x, (x / c)%Qc) a.

Definition prepare_features (features : tensor Qc) : option (tensor Qc) :=
  let features := np_divide features (Q2Qc 255) in
  n ← shape features !! 0;
  tf_reshape features [n; 28; 28; 1].

(** [model] as the notebook declares it, before it has seen any input: no
    layer has weights yet. *)
Definition model_layers : list (layer Qc) :=
  [ Flatten;
    Dense 16 (Some relu) None;
    Dense 16 (Some relu) None;
    Dense 10 None None ].

(** ** The histogram of the eigenvalues

<<
w_hist = np.where(w>0., w, 1e-10)

bins = 10.**(np.arange(-10,1))
plt.xscale('log')
plt.hist(w_hist, bins=bins, edgecolor='#169acf', linewidth=2.)
>> *)

(** [w > c], elementwise. *)
Definition np_greater (w : list Qc) (c : Qc) : list bool :=
  map (λ x, bool_decide (c < x)%Qc) w.

(** [np.where(mask, a, c)] for an array [a] and a number [c]. *)
Definition np_where (mask : list bool) (a : list Qc) (c : Qc) : list Qc :=
  zip_with (λ (b : bool) x, if b then x else c) mask a.

Definition w_hist (w : list Qc) : list Qc :=
  np_where (np_greater w 0%Qc) w (Q2Qc (1 # 10000000000)).

(** [np.arange(start, stop)] on integers. *)
Definition np_arange (start stop : Z) : list Z :=
  map (λ i, (start + Z.of_nat i)%Z) (seq 0 (Z.to_nat (stop - start))).

(** [10.**k] for an integer [k]. *)
Definition pow10 (k : Z) : Qc :=
  if decide (0 ≤ k)%Z then Qcpower (Q2Qc 10) (Z.to_nat k)
  else (/ Qcpower (Q2Qc 10) (Z.to_nat (- k)))%Qc.

Definition bins : list Qc := map pow10 (np_arange (-10) 1).

(** The heights of the bars [plt.hist(a, bins)] draws: bar [i] counts the
    entries [x] with [bins[i] <= x < bins[i+1]], and the last bar also
    those equal to the last edge; entries outside the edges are not
    counted. *)
Definition in_bin (edges : list Qc) (i : nat) (x : Qc) : bool :=
  match edges !! i, edges !! (S i) with
  | Some lo, Some hi =>
      bool_decide (lo ≤ x)%Qc &&
      (bool_decide (x < hi)%Qc ||
       (bool_decide (S (S i) = length edges) && bool_decide (x = hi)))
  | _, _ => false
  end.

Definition plt_hist (a : list Qc) (edges : list Qc) : list nat :=
  map (λ i, length (filter (λ x, in_bin edges i x = true) a))
      (seq 0 (length edges - 1)).

(** * Theorems *)

(** ** Lists of entries *)

Section Tabulate.
Context {A : Type}.

Lemma length_flat_map_const {B} (g : B → list A) (l : list B) n :
  (∀ x, length (g x) = n) → length (flat_map g l) = length l * n.
Proof.
  intros Hg. induction l as [|x l IH]; simpl; [done|].
  rewrite length_app, Hg, IH. lia.
Qed.

(** Entry [i * n + j] of a concatenation of blocks of length [n] is entry
    [j] of block [i]. *)
Lemma nth_flat_map_const {B} (g : B → list A) (l : list B) n i j (d : A) (b : B) :
  (∀ x, length (g x) = n) → i < length l → j < n →
  nth (i * n + j) (flat_map g l) d = nth j (g (nth i l b)) d.
Proof.
  intros Hg. revert i. induction l as [|x l IH]; intros i Hi Hj; simpl in *; [lia|].
  destruct i as [|i]; simpl.
  - rewrite app_nth1 by (rewrite Hg; lia). done.
  - rewrite app_nth2 by (rewrite Hg; lia). rewrite Hg.
    replace (n + i * n + j - n) with (i * n + j) by lia.
    apply IH; lia.
Qed.

Lemma length_tabulate2 r n (f : nat → nat → A) :
  length (tabulate2 r n f) = r * n.
Proof.
  unfold tabulate2. rewrite (length_flat_map_const _ _ n).
  - by rewrite length_seq.
  - intros x. by rewrite length_map, length_seq.
Qed.

Lemma nth_tabulate2 r n (f : nat → nat → A) i j d :
  i < r → j < n → nth (i * n + j) (tabulate2 r n f) d = f i j.
Proof.
  intros Hi Hj. unfold tabulate2.
  rewrite (nth_flat_map_const _ _ n i j d 0).
  - rewrite seq_nth by done. simpl.
    rewrite (nth_indep _ d (f i 0)) by (rewrite length_map, length_seq; lia).
    rewrite (map_nth (f i) (seq 0 n) 0 j), seq_nth by done. done.
  - intros x. by rewrite length_map, length_seq.
  - by rewrite length_seq.
  - done.
Qed.

Lemma flat_map_ext_In {B} (g h : B → list A) (l : list B) :
  (∀ x, In x l → g x = h x) → flat_map g l = flat_map h l.
Proof.
  induction l as [|x l IH]; intros Hgh; simpl; [done|].
  rewrite Hgh by (by left). rewrite IH; [done|].
  intros y Hy. apply Hgh. by right.
Qed.

Lemma tabulate2_ext r n (f g : nat → nat → A) :
  (∀ i j, i < r → j < n → f i j = g i j) → tabulate2 r n f = tabulate2 r n g.
Proof.
  intros Hfg. unfold tabulate2. apply flat_map_ext_In. intros i Hi.
  apply in_seq in Hi. apply map_ext_in. intros j Hj. apply in_seq in Hj.
  apply Hfg; lia.
Qed.

End Tabulate.

Lemma well_shaped_eye n : well_shaped (eye n).
Proof. unfold well_shaped, eye. cbn [data shape numel foldr]. rewrite length_tabulate2. lia. Qed.

(** ** Direction selection *)

Section Argmax.

Lemma argmax_from_true besti i l : argmax_from true besti i l = besti.
Proof. revert i. induction l as [|b l IH]; intros i; simpl; auto. Qed.

(** Scanning on from [i] with nothing found yet: the result is the first
    [true] of the rest, or the candidate held so far. *)
Lemma argmax_from_false besti i l :
  argmax_from false besti i l =
    match first_index (λ b, b) l with Some k => (i + k) | None => besti end.
Proof.
  revert i. induction l as [|b l IH]; intros i; simpl; [done|].
  destruct b; simpl.
  - rewrite argmax_from_true. lia.
  - rewrite IH. destruct (first_index (λ b, b) l); simpl; lia.
Qed.

Lemma np_argmax_first_true mask k :
  first_index (λ b, b) mask = Some k → np_argmax mask = Some k.
Proof.
  destruct mask as [|b l]; simpl; [done|].
  destruct b; simpl.
  - intros [= <-]. by rewrite argmax_from_true.
  - rewrite argmax_from_false. destruct (first_index (λ b, b) l); simpl; [|done].
    intros [= <-]. done.
Qed.

Lemma np_argmax_all_false mask :
  mask ≠ [] → first_index (λ b, b) mask = None → np_argmax mask = Some 0.
Proof.
  destruct mask as [|b l]; simpl; [done|]. intros _.
  destruct b; simpl; [done|].
  rewrite argmax_from_false. by destruct (first_index (λ b, b) l).
Qed.

Lemma first_index_Some {A} (p : A → bool) l k :
  first_index p l = Some k ↔
  (∃ x, l !! k = Some x ∧ p x = true) ∧
  (∀ i y, (i < k) → l !! i = Some y → p y = false).
Proof.
  revert k. induction l as [|a l IH]; intros k; simpl.
  - split; [done|]. intros [(x & Hx & _) _]. done.
  - destruct (p a) eqn:Hpa.
    + split.
      * intros [= <-]. split; [by exists a|]. intros i y Hi. lia.
      * intros [(x & Hx & Hpx) Hlt]. destruct k as [|k]; [done|].
        specialize (Hlt 0 a). simpl in Hlt. rewrite Hlt in Hpa; [done|lia|done].
    + split.
      * intros Hk. destruct (first_index p l) as [k'|]; [|done].
        simpl in Hk. injection Hk as <-.
        destruct (proj1 (IH k') eq_refl) as [Hx Hlt].
        split; [done|]. intros [|i] y Hi; simpl; [by intros [= <-]|].
        apply Hlt. lia.
      * intros [(x & Hx & Hpx) Hlt]. destruct k as [|k].
        { simpl in Hx. injection Hx as ->. congruence. }
        rewrite (proj2 (IH k)); [done|].
        split; [by exists x|].
        intros i y Hi Hy. apply (Hlt (S i) y); [lia|done].
Qed.

Lemma first_index_None {A} (p : A → bool) l :
  first_index p l = None ↔ Forall (λ x, p x = false) l.
Proof.
  induction l as [|a l IH]; simpl; [by split|].
  rewrite list.Forall_cons. destruct (p a) eqn:Hpa.
  - split; [done|]. intros [? _]. congruence.
  - destruct (first_index p l); simpl.
    + split; [done|]. intros [_ H]. by apply IH in H.
    + split; [|done]. intros _. split; [done|]. by apply IH.
Qed.

Lemma first_index_lt {A} (p : A → bool) l k :
  first_index p l = Some k → (k < length l).
Proof.
  intros H. apply first_index_Some in H as [(x & Hx & _) _].
  by eapply lookup_lt_Some.
Qed.

Lemma first_index_map {A B} (f : A → B) (p : B → bool) l :
  first_index p (map f l) = first_index (p ∘ f) l.
Proof. induction l as [|a l IH]; simpl; [done|]. by rewrite IH. Qed.

Lemma np_argmax_lt mask k : np_argmax mask = Some k → (k < length mask).
Proof.
  destruct (first_index (λ b, b) mask) as [k'|] eqn:Hf.
  - rewrite (np_argmax_first_true _ _ Hf). intros [= <-].
    by eapply first_index_lt.
  - destruct mask as [|b l]; [done|].
    rewrite np_argmax_all_false; [|done..]. intros [= <-]. simpl. lia.
Qed.

End Argmax.

Section Selection.

Implicit Types (w : list Qc) (v : tensor Qc) (N : nat).

Lemma np_index_Some n j :
  is_Some (np_index n j) ↔ (- Z.of_nat n ≤ j < Z.of_nat n)%Z.
Proof.
  unfold np_index. repeat case_decide; split; intros H'; try lia;
    try (by eexists); by destruct H'.
Qed.

Lemma np_index_nonneg n (j : nat) :
  (j < n) → np_index n (Z.of_nat j) = Some j.
Proof.
  intros. unfold np_index. rewrite decide_True by lia. by rewrite Nat2Z.id.
Qed.

Lemma np_index_minus_one n :
  (0 < n) → np_index n (-1) = Some (n - 1).
Proof.
  intros. unfold np_index. rewrite decide_False by lia.
  rewrite decide_True by lia. f_equal. lia.
Qed.

Lemma np_index_past_end n : np_index n (Z.of_nat n) = None.
Proof.
  unfold np_index. rewrite decide_False by lia. by rewrite decide_False by lia.
Qed.

Lemma np_column_Some v r n j :
  shape v = [r; n] → is_Some (np_column v j) ↔ is_Some (np_index n j).
Proof.
  intros Hs. unfold np_column. rewrite Hs.
  destruct (np_index n j); simpl.
  - split; intros _; by eexists.
  - split; intros [? [=]].
Qed.

Lemma np_column_length v r n j d :
  shape v = [r; n] → np_column v j = Some d → length d = r.
Proof.
  intros Hs. unfold np_column. rewrite Hs.
  destruct (np_index n j); simpl; [|done].
  intros [= <-]. by rewrite length_map, length_seq.
Qed.

(** What [np.argmax(w < 1e-6)] finds: the first eigenvalue strictly below
    the threshold, and position 0 when there is none. *)
Lemma np_argmax_below w :
  w ≠ [] →
  ∃ index, np_argmax (np_less w threshold) = Some index ∧ (index < length w) ∧
    (first_index (λ x, bool_decide (x < threshold)%Qc) w = Some index ∨
     (index = 0 ∧ first_index (λ x, bool_decide (x < threshold)%Qc) w = None)).
Proof.
  intros Hw. unfold np_less.
  destruct (first_index (λ x, bool_decide (x < threshold)%Qc) w) as [k|] eqn:Hf.
  - exists k. split_and!; [|by eapply first_index_lt|by left].
    apply np_argmax_first_true. by rewrite first_index_map.
  - exists 0. split_and!; [|destruct w; [done|simpl; lia]|by right].
    apply np_argmax_all_false; [by destruct w|]. by rewrite first_index_map.
Qed.

End Selection.

(** The stacked directions: two rows, as long as the eigenvectors. *)
Lemma select_directions_shape (w : list Qc) (v dv : tensor Qc) (N : nat) :
  shape v = [N; N] → select_directions w v = Some dv →
  shape dv = [2; N] ∧ well_shaped dv ∧ nb_directions dv = 2.
Proof.
  intros Hv. unfold select_directions.
  destruct (np_argmax (np_less w threshold)) as [index|]; [|done]. simpl.
  destruct (np_column v (Z.of_nat index - 1)) as [d1|] eqn:Hd1; [|done]. simpl.
  destruct (np_column v (Z.of_nat index + 1)) as [d2|] eqn:Hd2; [|done]. simpl.
  intros [= <-].
  apply (np_column_length v N N) in Hd1, Hd2; [|done..].
  unfold well_shaped, tf_stack, nb_directions. simpl.
  rewrite length_app, length_app, Hd1, Hd2. simpl. split_and!; [done| lia |done].
Qed.

(** Every eigenvalue before the position found is at least the threshold. *)
Lemma before_index_not_below (w : list Qc) index :
  first_index (λ x, bool_decide (x < threshold)%Qc) w = Some index →
  ∀ i x, (i < index) → w !! i = Some x → ¬ (x < threshold)%Qc.
Proof.
  intros Hf i x Hi Hx. apply first_index_Some in Hf as [_ Hlt].
  specialize (Hlt i x Hi Hx). by apply bool_decide_eq_false in Hlt.
Qed.

(** C2 (amended).  [index] is the position of the first eigenvalue strictly
    _below_ [1e-6] (position 0 when no eigenvalue is below it); the
    eigenvalue at [index] is below the threshold and no earlier one is, in
    particular not the one at [index-1]; the step stacks the eigenvector at
    [index-1] first and the eigenvector at [index+1] second. *)
Theorem select_directions_index_rule (w : list Qc) (v : tensor Qc) :
  w ≠ [] →
  ∃ index,
    np_argmax (np_less w threshold) = Some index ∧
    ((∃ x, w !! index = Some x ∧ (x < threshold)%Qc) ∨
     (index = 0 ∧ Forall (λ x, ¬ (x < threshold)%Qc) w)) ∧
    (∀ i x, (i < index) → w !! i = Some x → ¬ (x < threshold)%Qc) ∧
    select_directions w v =
      (d1 ← np_column v (Z.of_nat index - 1);
       d2 ← np_column v (Z.of_nat index + 1);
       Some (tf_stack [d1; d2])).
Proof.
  intros Hw. destruct (np_argmax_below w Hw) as (index & Ha & Hlt & Hcase).
  exists index. split_and!; [done| | |].
  - destruct Hcase as [Hf|[-> Hf]].
    + left. apply first_index_Some in Hf as [(x & Hx & Hp) _].
      exists x. split; [done|]. by apply bool_decide_eq_true in Hp.
    + right. split; [done|]. apply first_index_None in Hf.
      eapply list.Forall_impl; [exact Hf|]. intros x Hx.
      by apply bool_decide_eq_false in Hx.
  - destruct Hcase as [Hf|[-> Hf]]; [by apply before_index_not_below|].
    intros i x Hi. lia.
  - unfold select_directions. by rewrite Ha.
Qed.

Lemma select_directions_index_rule_witness :
  ∃ index,
    np_argmax (np_less w_gap threshold) = Some index ∧
    ((∃ x, w_gap !! index = Some x ∧ (x < threshold)%Qc) ∨
     (index = 0 ∧ Forall (λ x, ¬ (x < threshold)%Qc) w_gap)) ∧
    (∀ i x, (i < index) → w_gap !! i = Some x → ¬ (x < threshold)%Qc) ∧
    select_directions w_gap v_gap =
      (d1 ← np_column v_gap (Z.of_nat index - 1);
       d2 ← np_column v_gap (Z.of_nat index + 1);
       Some (tf_stack [d1; d2])).
Proof. apply (select_directions_index_rule w_gap v_gap). discriminate. Defined.

(** C2, as stated, fails on the spectrum of 128 ones followed by 128
    zeros: the first eigenvalue exceeding the threshold is at position 0, the
    notebook finds position 128, the eigenvalue at position 127 is 1 (not
    below the threshold), and the two rules select different pairs of
    eigenvectors. *)
Lemma select_directions_not_first_exceeding :
  spec_index w_half = Some 0 ∧
  np_argmax (np_less w_half threshold) = Some 128 ∧
  (∃ x, w_half !! 127 = Some x ∧ ¬ (x < threshold)%Qc) ∧
  select_directions w_half (eye 256) ≠ spec_select_directions w_half (eye 256).
Proof.
  split_and!.
  - vm_compute. reflexivity.
  - vm_compute. reflexivity.
  - exists 1%Qc. split; [reflexivity|]. vm_compute. discriminate.
  - intros Heq.
    assert ((λ t, this (nth 127 (data t) 0%Qc)) <$> select_directions w_half (eye 256)
            = Some 1%Q) as Hcode by (vm_compute; reflexivity).
    assert ((λ t, this (nth 127 (data t) 0%Qc)) <$> spec_select_directions w_half (eye 256)
            = Some 0%Q) as Hspec by (vm_compute; reflexivity).
    rewrite Heq, Hspec in Hcode. discriminate.
Qed.

(** C8 (amended).  On an [N]-entry spectrum ([N ≥ 1]) with an [N × N]
    eigenvector matrix the step finds an index, and it returns a pair of
    [N]-entry direction vectors, with no error, exactly when that index is
    not the last position; at the last position reading [v[:, index+1]]
    raises.  Nothing else is checked: a spectrum without a gap is not
    noticed. *)
Theorem select_directions_total_unless_last (w : list Qc) (v : tensor Qc) (N : nat) :
  length w = N → shape v = [N; N] → (0 < N) →
  ∃ index,
    np_argmax (np_less w threshold) = Some index ∧
    (select_directions w v = None ↔ (index + 1) = N) ∧
    ((index + 1 < N) →
     ∃ d1 d2, select_directions w v = Some (tf_stack [d1; d2]) ∧
              length d1 = N ∧ length d2 = N).
Proof.
  intros Hlen Hv HN.
  assert (w ≠ []) as Hw by (intros ->; simpl in Hlen; lia).
  destruct (np_argmax_below w Hw) as (index & Ha & Hlt & _).
  exists index. split; [done|].
  unfold select_directions. rewrite Ha. simpl.
  assert (is_Some (np_column v (Z.of_nat index - 1))) as [d1 Hd1].
  { rewrite (np_column_Some v N N) by done. apply np_index_Some. lia. }
  rewrite Hd1. simpl.
  destruct (decide (index + 1 = N)) as [Hlast|Hnot].
  - assert (np_column v (Z.of_nat index + 1) = None) as ->.
    { apply eq_None_not_Some. rewrite (np_column_Some v N N) by done.
      rewrite np_index_Some. lia. }
    simpl. split; [done|]. lia.
  - assert (is_Some (np_column v (Z.of_nat index + 1))) as [d2 Hd2].
    { rewrite (np_column_Some v N N) by done. apply np_index_Some. lia. }
    rewrite Hd2. simpl. split; [done|]. intros _. exists d1, d2.
    split_and!; [done|by eapply np_column_length..].
Qed.

Lemma select_directions_total_unless_last_witness :
  ∃ index,
    np_argmax (np_less w_gap threshold) = Some index ∧
    (select_directions w_gap v_gap = None ↔ (index + 1) = 4) ∧
    ((index + 1 < 4) →
     ∃ d1 d2, select_directions w_gap v_gap = Some (tf_stack [d1; d2]) ∧
              length d1 = 4 ∧ length d2 = 4).
Proof.
  apply (select_directions_total_unless_last w_gap v_gap 4);
    [reflexivity | reflexivity | lia].
Defined.

(** C8, as stated, fails on the spectrum of 255 ones followed by one zero:
    the first eigenvalue below the threshold is the last one, and the step
    raises instead of returning a pair. *)
Lemma select_directions_raises_at_last :
  length w_last = 256 ∧ shape (eye 256) = [256; 256] ∧ well_shaped (eye 256) ∧
  np_argmax (np_less w_last threshold) = Some 255 ∧
  select_directions w_last (eye 256) = None.
Proof.
  split_and!.
  - reflexivity.
  - reflexivity.
  - apply well_shaped_eye.
  - vm_compute. reflexivity.
  - vm_compute. reflexivity.
Qed.

(** C10.  With no eigenvalue below the threshold the mask is all false,
    [np.argmax] returns 0, and the step reads [v[:, -1]], which is the last
    column, and [v[:, 1]], without error; and when the first eigenvalue below
    the threshold is the last entry of [w], [index + 1] is the length of the
    axis, one past the last column, so that reading [v[:, index+1]]
    raises.  ([N] is 256 in the notebook.) *)
Theorem select_directions_edge_cases (w : list Qc) (v : tensor Qc) (N : nat) :
  length w = N → shape v = [N; N] → (2 ≤ N) →
  (Forall (λ x, ¬ (x < threshold)%Qc) w →
     np_argmax (np_less w threshold) = Some 0 ∧
     np_column v (0 - 1) = np_column v (Z.of_nat (N - 1)) ∧
     ∃ d1 d2, np_column v (0 - 1) = Some d1 ∧ np_column v (0 + 1) = Some d2 ∧
              select_directions w v = Some (tf_stack [d1; d2])) ∧
  (first_index (λ x, bool_decide (x < threshold)%Qc) w = Some (N - 1) →
     np_argmax (np_less w threshold) = Some (N - 1) ∧
     (Z.of_nat (N - 1) + 1)%Z = Z.of_nat N ∧
     np_index N (Z.of_nat (N - 1) + 1) = None ∧
     np_column v (Z.of_nat (N - 1) + 1) = None ∧
     select_directions w v = None).
Proof.
  intros Hlen Hv HN. split.
  - intros Hall.
    assert (np_argmax (np_less w threshold) = Some 0) as Ha.
    { apply np_argmax_all_false.
      - destruct w; [simpl in Hlen; lia|done].
      - unfold np_less. rewrite first_index_map. apply first_index_None.
        eapply list.Forall_impl; [exact Hall|]. intros x Hx. simpl.
        by apply bool_decide_eq_false. }
    assert (np_column v (0 - 1) = np_column v (Z.of_nat (N - 1))) as Hwrap.
    { unfold np_column. rewrite Hv. change (0 - 1)%Z with (-1)%Z.
      rewrite np_index_minus_one by lia. by rewrite np_index_nonneg by lia. }
    split_and!; [done..|].
    assert (is_Some (np_column v (0 - 1))) as [d1 Hd1].
    { rewrite (np_column_Some v N N) by done. apply np_index_Some. lia. }
    assert (is_Some (np_column v (0 + 1))) as [d2 Hd2].
    { rewrite (np_column_Some v N N) by done. apply np_index_Some. lia. }
    exists d1, d2. split_and!; [done..|].
    unfold select_directions. rewrite Ha. simpl.
    change (Z.of_nat 0) with 0%Z.
    by rewrite Hd1, Hd2.
  - intros Hf.
    assert (np_argmax (np_less w threshold) = Some (N - 1)) as Ha.
    { apply np_argmax_first_true. unfold np_less. by rewrite first_index_map. }
    assert ((Z.of_nat (N - 1) + 1)%Z = Z.of_nat N) as Hpast by lia.
    assert (np_column v (Z.of_nat (N - 1) + 1) = None) as Hcol.
    { unfold np_column. rewrite Hv, Hpast. by rewrite np_index_past_end. }
    split_and!; [exact Ha|exact Hpast|by rewrite Hpast, np_index_past_end|exact Hcol|].
    unfold select_directions. rewrite Ha. simpl. rewrite Hcol.
    by destruct (np_column v (Z.of_nat (N - 1) - 1)).
Qed.

Lemma select_directions_edge_cases_witness :
  (Forall (λ x, ¬ (x < threshold)%Qc) [1; 1]%Qc →
     np_argmax (np_less [1; 1]%Qc threshold) = Some 0 ∧
     np_column (eye 2) (0 - 1) = np_column (eye 2) (Z.of_nat (2 - 1)) ∧
     ∃ d1 d2, np_column (eye 2) (0 - 1) = Some d1 ∧ np_column (eye 2) (0 + 1) = Some d2 ∧
              select_directions [1; 1]%Qc (eye 2) = Some (tf_stack [d1; d2])) ∧
  (first_index (λ x, bool_decide (x < threshold)%Qc) [1; 1]%Qc = Some (2 - 1) →
     np_argmax (np_less [1; 1]%Qc threshold) = Some (2 - 1) ∧
     (Z.of_nat (2 - 1) + 1)%Z = Z.of_nat 2 ∧
     np_index 2 (Z.of_nat (2 - 1) + 1) = None ∧
     np_column (eye 2) (Z.of_nat (2 - 1) + 1) = None ∧
     select_directions [1; 1]%Qc (eye 2) = None).
Proof.
  apply (select_directions_edge_cases [1; 1]%Qc (eye 2) 2);
    [reflexivity | reflexivity | lia].
Defined.

(** ** Coefficients of the expansion *)

(** A list of known length is the list of its entries. *)
Ltac explode_list l :=
  repeat (let x := fresh "x" in destruct l as [|x l]; [discriminate|]);
  destruct l; [|discriminate].

Ltac explode_tensor T Hs Hw :=
  let sh := fresh "sh" in let l := fresh "l" in
  destruct T as [sh l]; unfold well_shaped in Hw; simpl in Hs, Hw;
  subst sh; simpl in Hw; explode_list l.

(** Runs the tensor operations, leaving the arithmetic of the entries. *)
Ltac run_tensors := cbv -[Qcplus Qcmult Qcopp Qcinv Q2Qc].

(** An index below2 is 0 or 1. *)
Ltac below2 i := destruct i as [|[|i]]; [| |lia].

(** C5.  Each coefficient is a single scalar: the derivative tensor
    contracted over all its axes with the kernel [e⊗e], [e⊗f⊗f] or
    [f⊗f⊗f⊗f], times 1/2, 1/2 or 1/24; which leaves [T2[0,0] / 2],
    [T3[0,1,1] / 2] and [T4[1,1,1,1] / 24]. *)
Theorem coefficients_are_entries (T2 T3 T4 : tensor Qc) :
  shape T2 = [2; 2] → shape T3 = [2; 2; 2] → shape T4 = [2; 2; 2; 2] →
  well_shaped T2 → well_shaped T3 → well_shaped T4 →
  ∃ k2 k3 k4,
    e2 = Some k2 ∧ ef2 = Some k3 ∧ f4 = Some k4 ∧
    (∀ i j, i < 2 → j < 2 →
       tget 0%Qc k2 [i; j] = Qcmult (tnth e i) (tnth e j)) ∧
    (∀ i j k, i < 2 → j < 2 → k < 2 →
       tget 0%Qc k3 [i; j; k] = Qcmult (tnth e i) (Qcmult (tnth f j) (tnth f k))) ∧
    (∀ i j k l, i < 2 → j < 2 → k < 2 → l < 2 →
       tget 0%Qc k4 [i; j; k; l] =
         Qcmult (Qcmult (tnth f i) (tnth f j)) (Qcmult (tnth f k) (tnth f l))) ∧
    coeff_T2 T2 =
      Some (Tensor [] [Qcmult (Q2Qc (1 # 2)) (ssum (zip_with Qcmult (data T2) (data k2)))]) ∧
    coeff_T3 T3 =
      Some (Tensor [] [Qcmult (Q2Qc (1 # 2)) (ssum (zip_with Qcmult (data T3) (data k3)))]) ∧
    coeff_T4 T4 =
      Some (Tensor [] [Qcmult (Q2Qc (1 # 24)) (ssum (zip_with Qcmult (data T4) (data k4)))]) ∧
    coeff_T2 T2 = Some (Tensor [] [Qcmult (Q2Qc (1 # 2)) (tget 0%Qc T2 [0; 0])]) ∧
    coeff_T3 T3 = Some (Tensor [] [Qcmult (Q2Qc (1 # 2)) (tget 0%Qc T3 [0; 1; 1])]) ∧
    coeff_T4 T4 = Some (Tensor [] [Qcmult (Q2Qc (1 # 24)) (tget 0%Qc T4 [1; 1; 1; 1])]).
Proof.
  intros Hs2 Hs3 Hs4 Hw2 Hw3 Hw4.
  exists (Tensor [2; 2] [1; 0; 0; 0]%Qc),
    (Tensor [2; 2; 2] [0; 0; 0; 1; 0; 0; 0; 0]%Qc),
    (Tensor [2; 2; 2; 2] (replicate 15 0%Qc ++ [1%Qc])).
  split_and!; [by vm_compute|by vm_compute|by vm_compute|..].
  - intros i j Hi Hj. below2 i; below2 j; run_tensors; ring.
  - intros i j k Hi Hj Hk. below2 i; below2 j; below2 k; run_tensors; ring.
  - intros i j k l Hi Hj Hk Hl.
    below2 i; below2 j; below2 k; below2 l; run_tensors; ring.
  - explode_tensor T2 Hs2 Hw2. run_tensors; f_equal; f_equal; f_equal; ring.
  - explode_tensor T3 Hs3 Hw3. run_tensors; f_equal; f_equal; f_equal; ring.
  - explode_tensor T4 Hs4 Hw4. run_tensors; f_equal; f_equal; f_equal; ring.
  - explode_tensor T2 Hs2 Hw2. run_tensors; f_equal; f_equal; f_equal; ring.
  - explode_tensor T3 Hs3 Hw3. run_tensors; f_equal; f_equal; f_equal; ring.
  - explode_tensor T4 Hs4 Hw4. run_tensors; f_equal; f_equal; f_equal; ring.
Qed.

Lemma coefficients_are_entries_witness :
  let T2 := Tensor [2; 2] [1; 0; 0; 1]%Qc in
  let T3 := Tensor [2; 2; 2] (replicate 8 1%Qc) in
  let T4 := Tensor [2; 2; 2; 2] (replicate 16 1%Qc) in
  coeff_T2 T2 = Some (Tensor [] [Qcmult (Q2Qc (1 # 2)) (tget 0%Qc T2 [0; 0])]) ∧
  coeff_T3 T3 = Some (Tensor [] [Qcmult (Q2Qc (1 # 2)) (tget 0%Qc T3 [0; 1; 1])]) ∧
  coeff_T4 T4 = Some (Tensor [] [Qcmult (Q2Qc (1 # 24)) (tget 0%Qc T4 [1; 1; 1; 1])]).
Proof.
  intros T2 T3 T4.
  destruct (coefficients_are_entries T2 T3 T4)
    as (k2 & k3 & k4 & _ & _ & _ & _ & _ & _ & _ & _ & _ & H2 & H3 & H4);
    [reflexivity..|].
  split_and!; assumption.
Defined.

(** ** Tensor operations *)



Section OpsFacts.
Context {F : Type} `{Scalar F}.
Implicit Types (a b t : tensor F).

Lemma tf_reshape_Some t sh :
  numel sh = length (data t) → tf_reshape t sh = Some (Tensor sh (data t)).
Proof. intros Hn. unfold tf_reshape. by rewrite decide_True. Qed.

Lemma tf_matmul_Some a b r m n :
  shape a = [r; m] → shape b = [m; n] →
  tf_matmul a b =
    Some (Tensor [r; n]
            (tabulate2 r n (λ i j,
               ssum (map (λ k, smul (tnth a (i * m + k)) (tnth b (k * n + j)))
                       (seq 0 m))))).
Proof. intros Ha Hb. unfold tf_matmul. rewrite Ha, Hb. by rewrite decide_True. Qed.

Lemma tf_add_same a b :
  shape a = shape b →
  tf_add a b = Some (Tensor (shape a) (zip_with sadd (data a) (data b))).
Proof. intros Hs. unfold tf_add. by rewrite decide_True. Qed.

Lemma tf_add_bias a b r n :
  shape a = [r; n] → shape b = [n] →
  tf_add a b =
    Some (Tensor [r; n] (tabulate2 r n (λ i j, sadd (tnth a (i * n + j)) (tnth b j)))).
Proof.
  intros Ha Hb. unfold tf_add. rewrite Ha, Hb.
  rewrite decide_False by discriminate. by rewrite decide_True.
Qed.

(** [tf.tensordot(k, d, [[0],[0]])] of a vector with a stack of matrices. *)
Lemma tf_tensordot_stack a b K m n :
  shape a = [K] → shape b = [K; m; n] →
  tf_tensordot a b [0] [0] =
    Some (Tensor [m; n]
            (tabulate2 1 (m * n) (λ α β,
               ssum (map (λ k, smul (tnth a (k * 1 + α)) (tnth b (k * (m * n) + β)))
                       (seq 0 K))))).
Proof.
  intros Ha Hb. unfold tf_tensordot. rewrite Ha, Hb. simpl.
  rewrite decide_True by (split_and!; [done..|lia|lia|done]).
  by rewrite !Nat.mul_1_r.
Qed.

End OpsFacts.

(** ** Layers and models *)

Section CallShapes.
Context {F : Type} `{Scalar F}.
Implicit Types (x w b dv kernel bias : tensor F).

Lemma shape_apply_activation act (t : tensor F) :
  shape (apply_activation act t) = shape t.
Proof. by destruct act as [[]|]. Qed.

Lemma call_Flatten x n rest :
  shape x = n :: rest → call Flatten x = Some (Tensor [n; numel rest] (data x)).
Proof. intros Hx. simpl. by rewrite Hx. Qed.

Lemma call_Dense_shape u act kernel bias x n d u' :
  shape x = [n; d] → shape kernel = [d; u'] → shape bias = [u'] →
  ∃ y, call (Dense u act (Some (kernel, bias))) x = Some y ∧ shape y = [n; u'].
Proof.
  intros Hx Hk Hb. simpl.
  rewrite (tf_matmul_Some x kernel n d u') by done. simpl.
  rewrite (tf_add_bias _ bias n u') by done. simpl.
  eexists. split; [done|]. by rewrite shape_apply_activation.
Qed.

Lemma call_CustomLayer_shape w b dv act kernel x r m n K :
  shape x = [r; m] → shape w = [m; n] → shape b = [n] →
  shape dv = [K; m; n] → shape kernel = [K] →
  ∃ y, call (CustomLayer (w, b) dv act (Some kernel)) x = Some y ∧ shape y = [r; n].
Proof.
  intros Hx Hw Hb Hd Hk. simpl.
  rewrite (tf_tensordot_stack kernel dv K m n) by done. simpl.
  rewrite tf_add_same by done. simpl.
  rewrite (tf_matmul_Some x _ r m n) by done. simpl.
  rewrite (tf_add_bias _ b r n) by done. simpl.
  eexists. split; [done|]. by rewrite shape_apply_activation.
Qed.

End CallShapes.

Section ModelC.
Variables (k1 b1 k2 b2 k3 b3 : tensor Qc) (d : nat).
Hypothesis Hfit : fitted_shapes d k1 b1 k2 b2 k3 b3.

Variables (direction_vectors features : tensor Qc) (n : nat) (rest : list nat).
Hypothesis Hdirs : shape direction_vectors = [2; 256].
Hypothesis Hdirs_data : well_shaped direction_vectors.
Hypothesis Hfeatures : shape features = n :: rest.
Hypothesis Hrest : numel rest = d.

Variable init : nat → nat → Qc.

Let model := fitted_model k1 b1 k2 b2 k3 b3.
Let x_star := x_star_of model.

Let directions_reshaped : tensor Qc :=
  Tensor [2; 16; 16] (data direction_vectors).

Lemma x_star_fitted : x_star = [[]; [k1; b1]; [k2; b2]; [k3; b3]].
Proof. done. Qed.

Lemma model_c_layers_fitted :
  model_c_layers x_star direction_vectors =
    Some [Flatten; Dense 16 (Some relu) None;
          CustomLayer (k2, b2) directions_reshaped None None;
          Dense 10 None None].
Proof.
  destruct Hfit as (_ & _ & Hk2 & _).
  unfold model_c_layers. rewrite x_star_fitted.
  change (py_index [[]; [k1; b1]; [k2; b2]; [k3; b3]] (-2)) with (Some [k2; b2]).
  simpl. change (py_index [k2; b2] 0) with (Some k2).
  change (py_index [k2; b2] 1) with (Some b2). simpl.
  unfold CustomLayer_init. simpl. rewrite Hdirs, Hk2.
  rewrite tf_reshape_Some; [done|].
  rewrite Hdirs_data, Hdirs. done.
Qed.

Lemma first_call_model_c :
  ∃ out,
    first_call init
      [Flatten; Dense 16 (Some relu) None;
       CustomLayer (k2, b2) directions_reshaped None None;
       Dense 10 None None] features =
    Some ([Flatten;
           Dense 16 (Some relu) (Some (fresh init 2 [d; 16], fresh init 3 [16]));
           CustomLayer (k2, b2) directions_reshaped None (Some (fresh init 4 [2]));
           Dense 10 None (Some (fresh init 6 [16; 10], fresh init 7 [10]))], out).
Proof.
  destruct Hfit as (_ & _ & Hk2 & Hb2 & _).
  unfold first_call. cbn [first_call_from build mbind option_bind].
  rewrite (call_Flatten features n rest Hfeatures).
  cbn [mbind option_bind shape]. rewrite Hrest.
  change (2 * 1) with 2. change (2 + 1) with 3. change (2 * 2) with 4.
  change (hd 0 (shape directions_reshaped)) with 2.
  destruct (call_Dense_shape 16 (Some relu) (fresh init 2 [d; 16])
              (fresh init 3 [16]) (Tensor [n; d] (data features)) n d 16)
    as (y1 & Hy1 & Hs1); [done..|].
  rewrite Hy1. cbn [mbind option_bind].
  destruct (call_CustomLayer_shape k2 b2 directions_reshaped None
              (fresh init 4 [2]) y1 n 16 16 2) as (y2 & Hy2 & Hs2); [done..|].
  rewrite Hy2. cbn [mbind option_bind]. rewrite Hs2.
  change (2 * 3) with 6. change (6 + 1) with 7.
  destruct (call_Dense_shape 10 None (fresh init 6 [16; 10])
              (fresh init 7 [10]) y2 n 16 10) as (y3 & Hy3 & Hs3); [done..|].
  cbn [mbind option_bind]. rewrite Hy3. cbn [mbind option_bind]. by exists y3.
Qed.

(** What the notebook's construction of [model_c] returns. *)
Lemma make_model_c_fitted :
  make_model_c init x_star direction_vectors features =
    Some (model_c_at k1 b1 k2 b2 k3 b3 direction_vectors None (tf_zeros [2])).
Proof.
  unfold make_model_c. rewrite model_c_layers_fitted. cbn [mbind option_bind].
  destruct first_call_model_c as (out & ->).
  destruct Hfit as (Hk1 & Hb1 & Hk2 & Hb2 & Hk3 & Hb3 & _).
  cbn [mbind option_bind length]. rewrite x_star_fitted.
  change (filter (λ i, i ≠ nb_layer) (seq 0 4)) with [0; 1; 3].
  cbn [assign_weights lookup list_lookup mbind option_bind
       set_layer_weights set_weights shape fresh list_insert insert].
  rewrite decide_True by done.
  cbn [mbind option_bind lookup list_lookup set_layer_weights set_weights
       shape fresh list_insert insert].
  rewrite decide_True by done.
  cbn [mbind option_bind lookup list_lookup set_layer_weights set_weights
       shape fresh list_insert insert nb_layer].
  unfold nb_directions. rewrite Hdirs. simpl hd.
  rewrite decide_True by done. done.
Qed.

End ModelC.

(** ** Entries of a layer's output *)

Lemma nth_zip_with {A B C} (g : A → B → C) (la : list A) (lb : list B) i da db dc :
  i < length la → i < length lb →
  nth i (zip_with g la lb) dc = g (nth i la da) (nth i lb db).
Proof.
  revert lb i. induction la as [|a la IH]; intros [|b lb] i Ha Hb; simpl in *; try lia.
  destruct i as [|i]; [done|]. apply IH; lia.
Qed.

Lemma offset_2 r m i k : offset [r; m] [i; k] = i * m + k.
Proof. simpl. lia. Qed.

Lemma offset_3 s r m h i k : offset [s; r; m] [h; i; k] = h * (r * m) + (i * m + k).
Proof. simpl. lia. Qed.


Lemma ssum_ext {B} (g h : B → Qc) (l : list B) :
  (∀ x, In x l → g x = h x) → ssum (map g l) = ssum (map h l).
Proof. intros Hgh. f_equal. by apply map_ext_in. Qed.

Lemma index_in_block k j m n : k < m → j < n → k * n + j < m * n.
Proof. intros. nia. Qed.

Section Entries.
Implicit Types (x w b dv : tensor Qc).

(** A dense layer: [act (x · W + b)]. *)
Lemma call_Dense_entries u act w b x r m n :
  shape x = [r; m] → shape w = [m; n] → shape b = [n] →
  ∃ out, call (Dense u act (Some (w, b))) x = Some out ∧ shape out = [r; n] ∧
    ∀ i j, i < r → j < n →
      tget 0%Qc out [i; j] =
        let z := (ssum (map (λ k, tget 0 x [i; k] * tget 0 w [k; j]) (seq 0 m))
                  + tget 0 b [j])%Qc in
        match act with Some relu => Qc_relu z | None => z end.
Proof.
  intros Hx Hw Hb. cbn [call].
  rewrite (tf_matmul_Some x w r m n) by done. cbn [mbind option_bind].
  rewrite (tf_add_bias _ b r n) by done. cbn [mbind option_bind].
  eexists. split; [done|]. split; [by rewrite shape_apply_activation|].
  intros i j Hi Hj.
  assert (∀ l : list Qc, i * n + j < length l →
            nth (i * n + j) (map Qc_relu l) 0%Qc = Qc_relu (nth (i * n + j) l 0%Qc))
    as Hrelu.
  { intros l Hl. rewrite (nth_indep _ 0%Qc (Qc_relu 0%Qc)) by (by rewrite length_map).
    apply map_nth. }
  assert (nth (i * n + j)
            (tabulate2 r n (λ i j,
               sadd (tnth (Tensor [r; n]
                       (tabulate2 r n (λ i j,
                          ssum (map (λ k, smul (tnth x (i * m + k)) (tnth w (k * n + j)))
                                  (seq 0 m))))) (i * n + j)) (tnth b j))) 0%Qc
          = (ssum (map (λ k, tget 0 x [i; k] * tget 0 w [k; j]) (seq 0 m))
             + tget 0 b [j])%Qc) as Hentry.
  { rewrite nth_tabulate2 by done. unfold tnth at 1. cbn [data].
    rewrite nth_tabulate2 by done. unfold tget. rewrite Hx, Hw, Hb.
    simpl (offset [n] [j]). replace (j * 1 + 0) with j by lia.
    unfold sadd. cbn [Qc_scalar]. f_equal. apply ssum_ext. intros k _.
    by rewrite !offset_2. }
  unfold tget at 1. rewrite shape_apply_activation. cbn [shape].
  rewrite offset_2.
  destruct act as [[]|]; cbn [apply_activation tmap data].
  - rewrite Hrelu by (rewrite length_tabulate2; by apply index_in_block).
    by rewrite Hentry.
  - by rewrite Hentry.
Qed.

(** The custom layer of [model_c], which has no activation: the affine
    map [x · (W + t1 d1 + t2 d2) + b]. *)
Lemma call_CustomLayer_entries w b dv x (t1 t2 : Qc) r m n :
  shape x = [r; m] → shape w = [m; n] → shape b = [n] →
  shape dv = [2; m; n] → well_shaped w →
  ∃ out, call (CustomLayer (w, b) dv None (Some (Tensor [2] [t1; t2]))) x = Some out ∧
    shape out = [r; n] ∧
    ∀ i j, i < r → j < n →
      tget 0%Qc out [i; j] =
        (ssum (map (λ k, tget 0 x [i; k] *
                         (tget 0 w [k; j] +
                          (t1 * tget 0 dv [0%nat; k; j] + t2 * tget 0 dv [1%nat; k; j])))
                 (seq 0 m))
         + tget 0 b [j])%Qc.
Proof.
  intros Hx Hw Hb Hd Hwd. cbn [call fst snd].
  rewrite (tf_tensordot_stack _ dv 2 m n) by done. cbn [mbind option_bind].
  rewrite tf_add_same by done. cbn [mbind option_bind].
  rewrite (tf_matmul_Some x _ r m n) by done. cbn [mbind option_bind].
  rewrite (tf_add_bias _ b r n) by done. cbn [mbind option_bind apply_activation].
  eexists. split; [done|]. split; [done|].
  intros i j Hi Hj. unfold tget at 1. cbn [shape data].
  rewrite offset_2, nth_tabulate2 by done. unfold tnth at 1. cbn [data].
  rewrite nth_tabulate2 by done. unfold tget at 5. rewrite Hb.
  simpl (offset [n] [j]).
  replace (j * 1 + 0) with j by lia. unfold sadd at 1. cbn [Qc_scalar].
  f_equal. apply ssum_ext. intros k Hk. apply in_seq in Hk.
  unfold smul at 1. cbn [Qc_scalar]. unfold tget. rewrite Hx, Hw, Hd.
  rewrite !offset_2, !offset_3. f_equal.
  unfold tnth at 1. cbn [data].
  rewrite (nth_zip_with _ _ _ _ 0%Qc 0%Qc).
  - f_equal. replace (k * n + j) with (0 * (m * n) + (k * n + j)) at 1 by lia.
    rewrite nth_tabulate2 by (try apply index_in_block; lia).
    cbn [seq map ssum foldr tnth data nth sadd smul sconst Qc_scalar].
    replace (0 * 1 + 0) with 0 by lia. replace (1 * 1 + 0) with 1 by lia.
    cbn [nth]. unfold tnth, sconst. cbn [Qc_scalar]. ring.
  - unfold well_shaped in Hwd. rewrite Hwd, Hw. simpl.
    rewrite Nat.mul_1_r. apply index_in_block; lia.
  - rewrite length_tabulate2. rewrite Nat.mul_1_l. apply index_in_block; lia.
Qed.

End Entries.

(** ** The reparametrized model *)

Section AtZero.
Implicit Types (x w b dv : tensor Qc).

(** With the coordinates at zero the kernel of the custom layer is the
    frozen one: the layer computes what a dense layer with the same
    activation computes. *)
Lemma call_CustomLayer_at_zero u act w b dv x r m n :
  shape x = [r; m] → shape w = [m; n] → shape b = [n] →
  shape dv = [2; m; n] → well_shaped w →
  call (CustomLayer (w, b) dv act (Some (tf_zeros [2]))) x =
  call (Dense u act (Some (w, b))) x.
Proof.
  intros Hx Hw Hb Hd Hwd. cbn [call fst snd].
  rewrite (tf_tensordot_stack _ dv 2 m n) by done. cbn [mbind option_bind].
  rewrite tf_add_same by done. cbn [mbind option_bind].
  rewrite (tf_matmul_Some x _ r m n) by done.
  rewrite (tf_matmul_Some x w r m n) by done. cbn [mbind option_bind].
  rewrite !(tf_add_bias _ b r n) by done. cbn [mbind option_bind].
  do 3 f_equal. apply tabulate2_ext. intros i j Hi Hj. f_equal.
  unfold tnth. cbn [data]. rewrite !nth_tabulate2 by done.
  apply ssum_ext. intros k Hk. apply in_seq in Hk. f_equal.
  rewrite (nth_zip_with _ _ _ _ 0%Qc 0%Qc).
  - replace (k * n + j) with (0 * (m * n) + (k * n + j)) at 2 by lia.
    rewrite nth_tabulate2 by (try apply index_in_block; lia).
    cbn [seq map ssum foldr tnth data nth sadd smul sconst Qc_scalar tf_zeros
         replicate numel].
    replace (0 * 1 + 0) with 0 by lia. replace (1 * 1 + 0) with 1 by lia.
    cbn [nth replicate Nat.mul Nat.add]. ring.
  - unfold well_shaped in Hwd. rewrite Hwd, Hw. simpl.
    rewrite Nat.mul_1_r. apply index_in_block; lia.
  - rewrite length_tabulate2. rewrite Nat.mul_1_l. apply index_in_block; lia.
Qed.

End AtZero.

(** What [model_c] computes at (0, 0), whatever activation the custom
    layer has: what [model] computes with that activation on its second
    hidden layer.  With [relu] this is [model] itself; with none, as the
    notebook builds it, it is [model] without the second [relu]. *)
Lemma model_c_at_zero (k1 b1 k2 b2 k3 b3 dirs x : tensor Qc) d n rest act :
  fitted_shapes d k1 b1 k2 b2 k3 b3 →
  shape x = n :: rest → numel rest = d →
  call_model (model_c_at k1 b1 k2 b2 k3 b3 dirs act (tf_zeros [2])) x =
  call_model [ Flatten;
               Dense 16 (Some relu) (Some (k1, b1));
               Dense 16 act (Some (k2, b2));
               Dense 10 None (Some (k3, b3)) ] x.
Proof.
  intros (Hk1 & Hb1 & Hk2 & Hb2 & Hk3 & Hb3 & _ & _ & Hw2 & _) Hx Hrest.
  unfold model_c_at. cbn [call_model].
  rewrite (call_Flatten x n rest Hx). cbn [mbind option_bind]. rewrite Hrest.
  destruct (call_Dense_shape 16 (Some relu) k1 b1 (Tensor [n; d] (data x)) n d 16)
    as (y1 & Hy1 & Hs1); [done..|].
  rewrite Hy1. cbn [mbind option_bind].
  by rewrite (call_CustomLayer_at_zero 16 act k2 b2 _ y1 n 16 16).
Qed.

(** Had the custom layer been given the activation of the layer it
    replaces, [model_c] at (0, 0) would compute what [model] computes, on
    every batch. *)
Lemma model_c_with_relu_agrees (k1 b1 k2 b2 k3 b3 dirs x : tensor Qc) d n rest :
  fitted_shapes d k1 b1 k2 b2 k3 b3 →
  shape x = n :: rest → numel rest = d →
  call_model (model_c_at k1 b1 k2 b2 k3 b3 dirs (Some relu) (tf_zeros [2])) x =
  call_model (fitted_model k1 b1 k2 b2 k3 b3) x.
Proof. intros Hfit Hx Hrest. by apply (model_c_at_zero _ _ _ _ _ _ _ _ d n rest). Qed.

Lemma ex_fitted_shapes : fitted_shapes 784 ex_k1 ex_b1 ex_k2 ex_b2 ex_k3 ex_b3.
Proof. repeat split; reflexivity. Defined.

(** C1, on the concrete run.  The notebook builds [model_c] with the
    coordinates at (0, 0), and on the black image [model] outputs the logits
    0 while [model_c] outputs -256 c for class c: the second hidden layer of
    [model] cuts its negative pre-activations -16 to 0 with [relu], and the
    custom layer, built without an activation, lets them through. *)
Theorem model_c_output_differs :
  (∀ init, make_model_c init (x_star_of ex_model) ex_directions ex_features
           = Some ex_model_c) ∧
  ∃ out out_c,
    call_model ex_model ex_features = Some out ∧
    call_model ex_model_c ex_features = Some out_c ∧
    shape out = [1; 10] ∧ shape out_c = [1; 10] ∧
    map this (data out) = replicate 10 0%Q ∧
    map this (data out_c) =
      map (λ c, inject_Z (-256 * Z.of_nat c)) (seq 0 10) ∧
    out ≠ out_c.
Proof.
  split.
  - intros init.
    apply (make_model_c_fitted ex_k1 ex_b1 ex_k2 ex_b2 ex_k3 ex_b3 784
             ex_fitted_shapes ex_directions ex_features 1 [28; 28; 1]);
      reflexivity.
  - eexists _, _. split; [vm_compute; reflexivity|].
    split; [vm_compute; reflexivity|].
    split_and!; [by vm_compute..|].
    intros Heq. apply (f_equal (λ t, map this (data t))) in Heq.
    vm_compute in Heq. discriminate.
Qed.

(** C7.  After the construction of [model_c] every layer but the custom one
    holds the weights [x_star] has for it; the custom layer holds the frozen
    kernel and bias of the layer it replaces as constants, and its only
    weight is the coordinate vector, two zeros; [model]'s own weights are
    what [x_star] lists. *)
Theorem model_c_weights_frame (k1 b1 k2 b2 k3 b3 direction_vectors features : tensor Qc)
    (d n : nat) (rest : list nat) (init : nat → nat → Qc) :
  fitted_shapes d k1 b1 k2 b2 k3 b3 →
  shape direction_vectors = [2; 256] → well_shaped direction_vectors →
  shape features = n :: rest → numel rest = d →
  let model := fitted_model k1 b1 k2 b2 k3 b3 in
  let x_star := x_star_of model in
  ∃ model_c,
    make_model_c init x_star direction_vectors features = Some model_c ∧
    length model_c = 4 ∧
    (∀ k, k < 4 → k ≠ nb_layer → get_weights <$> model_c !! k = x_star !! k) ∧
    (∃ dv act,
       model_c !! nb_layer =
         Some (CustomLayer (k2, b2) dv act (Some (Tensor [2] [0; 0]%Qc))) ∧
       x_star !! nb_layer = Some [k2; b2]) ∧
    trainable_variables model_c = [k1; b1; Tensor [2] [0; 0]%Qc; k3; b3] ∧
    map get_weights model = x_star.
Proof.
  intros Hfit Hdirs Hdata Hfeat Hrest model x_star.
  exists (model_c_at k1 b1 k2 b2 k3 b3 direction_vectors None (tf_zeros [2])).
  split; [by eapply make_model_c_fitted|].
  split; [done|]. split.
  - intros k Hk Hne. unfold nb_layer in Hne.
    destruct k as [|[|[|[|k]]]]; try done; lia.
  - split; [by eexists _, _|]. done.
Qed.

Lemma model_c_weights_frame_witness :
  let model := fitted_model ex_k1 ex_b1 ex_k2 ex_b2 ex_k3 ex_b3 in
  let x_star := x_star_of model in
  ∃ model_c,
    make_model_c (λ _ _, 1%Qc) x_star ex_directions ex_features = Some model_c ∧
    length model_c = 4 ∧
    (∀ k, k < 4 → k ≠ nb_layer → get_weights <$> model_c !! k = x_star !! k) ∧
    (∃ dv act,
       model_c !! nb_layer =
         Some (CustomLayer (ex_k2, ex_b2) dv act (Some (Tensor [2] [0; 0]%Qc))) ∧
       x_star !! nb_layer = Some [ex_k2; ex_b2]) ∧
    trainable_variables model_c = [ex_k1; ex_b1; Tensor [2] [0; 0]%Qc; ex_k3; ex_b3] ∧
    map get_weights model = x_star.
Proof.
  apply (model_c_weights_frame ex_k1 ex_b1 ex_k2 ex_b2 ex_k3 ex_b3
           ex_directions ex_features 784 1 [28; 28; 1] (λ _ _, 1%Qc)
           ex_fitted_shapes); reflexivity.
Defined.

(** C9.  The custom layer of [model_c] has no activation, where the layer
    of [model] at the same position has [relu]; so whatever coordinates
    (t1, t2) it is given, it maps a batch [x] to
    [x · (W + t1 d1 + t2 d2) + b], entry by entry, and the layer of [model]
    maps it to [relu (x · W + b)], where [W], [b] are the frozen kernel
    and bias. *)
Theorem custom_layer_is_affine (k1 b1 k2 b2 k3 b3 direction_vectors features : tensor Qc)
    (d n : nat) (rest : list nat) (init : nat → nat → Qc) :
  fitted_shapes d k1 b1 k2 b2 k3 b3 →
  shape direction_vectors = [2; 256] → well_shaped direction_vectors →
  shape features = n :: rest → numel rest = d →
  let model := fitted_model k1 b1 k2 b2 k3 b3 in
  ∃ model_c dv kernel,
    make_model_c init (x_star_of model) direction_vectors features = Some model_c ∧
    model_c !! nb_layer = Some (CustomLayer (k2, b2) dv None (Some kernel)) ∧
    shape dv = [2; 16; 16] ∧ data dv = data direction_vectors ∧
    model !! nb_layer = Some (Dense 16 (Some relu) (Some (k2, b2))) ∧
    ∀ (t1 t2 : Qc) (x : tensor Qc) (r : nat),
      shape x = [r; 16] →
      ∃ custom out out',
        set_weights (CustomLayer (k2, b2) dv None (Some kernel)) [Tensor [2] [t1; t2]]
          = Some custom ∧
        call custom x = Some out ∧ shape out = [r; 16] ∧
        call (Dense 16 (Some relu) (Some (k2, b2))) x = Some out' ∧
        ∀ i j, i < r → j < 16 →
          tget 0%Qc out [i; j] =
            (ssum (map (λ k, tget 0 x [i; k] *
                             (tget 0 k2 [k; j] +
                              (t1 * tget 0 dv [0%nat; k; j] + t2 * tget 0 dv [1%nat; k; j])))
                     (seq 0 16))
             + tget 0 b2 [j])%Qc ∧
          tget 0%Qc out' [i; j] =
            Qc_relu (ssum (map (λ k, tget 0 x [i; k] * tget 0 k2 [k; j]) (seq 0 16))
                     + tget 0 b2 [j])%Qc.
Proof.
  intros Hfit Hdirs Hdata Hfeat Hrest model.
  exists (model_c_at k1 b1 k2 b2 k3 b3 direction_vectors None (tf_zeros [2])),
    (Tensor [2; 16; 16] (data direction_vectors)), (tf_zeros [2]).
  split; [by eapply make_model_c_fitted|].
  split_and!; [done..|].
  destruct Hfit as (_ & _ & Hk2 & Hb2 & _ & _ & _ & _ & Hw2 & _).
  intros t1 t2 x r Hx.
  destruct (call_CustomLayer_entries k2 b2 (Tensor [2; 16; 16] (data direction_vectors))
              x t1 t2 r 16 16) as (out & Hout & Hso & Hent); [done..|].
  destruct (call_Dense_entries 16 (Some relu) k2 b2 x r 16 16)
    as (out' & Hout' & Hso' & Hent'); [done..|].
  exists (CustomLayer (k2, b2) (Tensor [2; 16; 16] (data direction_vectors)) None
            (Some (Tensor [2] [t1; t2]))), out, out'.
  split_and!; [done..|].
  intros i j Hi Hj. split; [by apply Hent|by apply Hent'].
Qed.

Lemma custom_layer_is_affine_witness :
  let model := fitted_model ex_k1 ex_b1 ex_k2 ex_b2 ex_k3 ex_b3 in
  ∃ model_c dv kernel,
    make_model_c (λ _ _, 1%Qc) (x_star_of model) ex_directions ex_features = Some model_c ∧
    model_c !! nb_layer = Some (CustomLayer (ex_k2, ex_b2) dv None (Some kernel)) ∧
    shape dv = [2; 16; 16] ∧ data dv = data ex_directions ∧
    model !! nb_layer = Some (Dense 16 (Some relu) (Some (ex_k2, ex_b2))) ∧
    ∀ (t1 t2 : Qc) (x : tensor Qc) (r : nat),
      shape x = [r; 16] →
      ∃ custom out out',
        set_weights (CustomLayer (ex_k2, ex_b2) dv None (Some kernel)) [Tensor [2] [t1; t2]]
          = Some custom ∧
        call custom x = Some out ∧ shape out = [r; 16] ∧
        call (Dense 16 (Some relu) (Some (ex_k2, ex_b2))) x = Some out' ∧
        ∀ i j, i < r → j < 16 →
          tget 0%Qc out [i; j] =
            (ssum (map (λ k, tget 0 x [i; k] *
                             (tget 0 ex_k2 [k; j] +
                              (t1 * tget 0 dv [0%nat; k; j] + t2 * tget 0 dv [1%nat; k; j])))
                     (seq 0 16))
             + tget 0 ex_b2 [j])%Qc ∧
          tget 0%Qc out' [i; j] =
            Qc_relu (ssum (map (λ k, tget 0 x [i; k] * tget 0 ex_k2 [k; j]) (seq 0 16))
                     + tget 0 ex_b2 [j])%Qc.
Proof.
  apply (custom_layer_is_affine ex_k1 ex_b1 ex_k2 ex_b2 ex_k3 ex_b3
           ex_directions ex_features 784 1 [28; 28; 1] (λ _ _, 1%Qc)
           ex_fitted_shapes); reflexivity.
Defined.

(** ** The gradient tape *)

Section Derivatives.
Variables fexp flog : Qc → Qc.
Variable ρ : nat → nat → Qc.

(** The derivatives of a recorded expression commute: the order in which
    two nested tapes differentiate does not matter. *)
Lemma deriv_comm (e : expr) (x y : nat * nat) :
  eval fexp flog ρ (deriv (deriv e x) y) = eval fexp flog ρ (deriv (deriv e y) x).
Proof.
  induction e as [c|v p|a IHa b IHb|a IHa b IHb|a IHa|a IHa|a IHa|a IHa|a IHa];
    cbn [deriv eval].
  - done.
  - by repeat case_decide.
  - by rewrite IHa, IHb.
  - rewrite IHa, IHb. ring.
  - rewrite IHa. ring.
  - done.
  - rewrite IHa. ring.
  - rewrite IHa. ring.
  - rewrite IHa. ring.
Qed.

(** Entries of gradients and Jacobians with respect to a variable. *)
Lemma gradient_tvar (e : expr) v (t : tensor Qc) :
  gradient e (tvar v t) =
    Tensor (shape t) (map (λ p, deriv e (v, p)) (seq 0 (length (data t)))).
Proof. unfold gradient, tvar, tmap. cbn [shape data]. by rewrite map_map. Qed.

Lemma length_gradient_tvar (e : expr) v (t : tensor Qc) :
  length (data (gradient e (tvar v t))) = length (data t).
Proof. rewrite gradient_tvar. cbn [data]. by rewrite length_map, length_seq. Qed.

Lemma nth_gradient_tvar (e : expr) v (t : tensor Qc) p dflt :
  p < length (data t) →
  nth p (data (gradient e (tvar v t))) dflt = deriv e (v, p).
Proof.
  intros Hp. rewrite gradient_tvar. cbn [data].
  rewrite (nth_indep _ dflt (deriv e (v, 0))) by (by rewrite length_map, length_seq).
  rewrite (map_nth (λ p, deriv e (v, p)) (seq 0 (length (data t))) 0 p).
  by rewrite seq_nth.
Qed.

Lemma length_jacobian_tvar (g : tensor expr) v (t : tensor Qc) :
  length (data (jacobian g (tvar v t))) = length (data g) * length (data t).
Proof.
  unfold jacobian. cbn [data].
  apply length_flat_map_const. intros e. apply length_gradient_tvar.
Qed.

Lemma nth_jacobian_tvar (g : tensor expr) v (t : tensor Qc) a p dflt :
  a < length (data g) → p < length (data t) →
  nth (a * length (data t) + p) (data (jacobian g (tvar v t))) dflt =
    deriv (nth a (data g) dflt) (v, p).
Proof.
  intros Ha Hp. unfold jacobian. cbn [data].
  rewrite (nth_flat_map_const _ _ (length (data t)) a p dflt dflt);
    [|intros e; apply length_gradient_tvar|done..].
  by apply nth_gradient_tvar.
Qed.

Lemma nth_tmap_eval (t : tensor expr) i :
  i < length (data t) →
  nth i (data (tmap (eval fexp flog ρ) t)) 0%Qc =
    eval fexp flog ρ (nth i (data t) (Const 0%Qc)).
Proof.
  intros Hi. unfold tmap. cbn [data].
  rewrite (nth_indep _ 0%Qc (eval fexp flog ρ (Const 0%Qc)))
    by (by rewrite length_map).
  apply map_nth.
Qed.

End Derivatives.

(** ** What the tape records is the computation

    Evaluating the recorded expressions at the values the variables hold
    gives back what the layers compute on numbers: the expression recorded
    for the loss is the loss, as a function of the trainable variables. *)






Section TapeSound.
(** Numbers with the operations of the layers, and a reading [ev] of the
    recorded expressions in them that commutes with these operations: the
    evaluation [eval] in the rationals, and the evaluation [evalR] in the
    reals. *)
Context {N : Type} `{Scalar N, Transcendental N}.
Variable ev : expr → N.
Hypothesis ev_const : ∀ c, ev (Const c) = sconst c.
Hypothesis ev_add : ∀ a b, ev (Add a b) = sadd (ev a) (ev b).
Hypothesis ev_mul : ∀ a b, ev (Mul a b) = smul (ev a) (ev b).
Hypothesis ev_relu : ∀ a, ev (Relu a) = srelu (ev a).
Hypothesis ev_exp : ∀ a, ev (Exp a) = sexp (ev a).
Hypothesis ev_log : ∀ a, ev (Log a) = slog (ev a).











End TapeSound.

Section WatchSound.
Variables fexp flog : Qc → Qc.










End WatchSound.


(** ** [deriv] is the derivative *)

Section Analytic.
Local Open Scope R_scope.

Lemma Qc2R_0 : Qc2R 0%Qc = 0.
Proof. unfold Qc2R, Q2R. simpl. lra. Qed.


Lemma Qc2R_m1 : Qc2R (- (1))%Qc = -1.
Proof. unfold Qc2R, Q2R. simpl. lra. Qed.






(** Over the reals too the derivatives commute. *)
Lemma deriv_comm_R ρ (e : expr) (x y : nat * nat) :
  evalR ρ (deriv (deriv e x) y) = evalR ρ (deriv (deriv e y) x).
Proof.
  induction e as [c|v p|a IHa b IHb|a IHa b IHb|a IHa|a IHa|a IHa|a IHa|a IHa];
    cbn [deriv evalR]; rewrite ?IHa, ?IHb, ?Qc2R_0;
    first [reflexivity | by repeat case_decide | ring].
Qed.

End Analytic.



(** ** The Hessian *)

Lemma shape_tvar v (t : tensor Qc) : shape (tvar v t) = shape t.
Proof. done. Qed.

Lemma shape_tconst (t : tensor Qc) : shape (tconst t) = shape t.
Proof. done. Qed.

Lemma loss_object_Some {F} `{Scalar F, Transcendental F}
    (y_true : list nat) (y_pred : tensor F) n c :
  shape y_pred = [n; c] → length y_true = n →
  is_Some (loss_object y_true y_pred).
Proof.
  intros Hs Hl. unfold loss_object. rewrite Hs. by rewrite decide_True.
Qed.

Section FittedTape.
Variables (k1 b1 k2 b2 k3 b3 : tensor Qc) (d : nat).
Hypothesis Hfit : fitted_shapes d k1 b1 k2 b2 k3 b3.
Variables (features : tensor Qc) (labels : list nat) (n : nat) (rest : list nat).
Hypothesis Hfeatures : shape features = n :: rest.
Hypothesis Hrest : numel rest = d.
Hypothesis Hlabels : length labels = n.

Lemma watch_fitted :
  watch (fitted_model k1 b1 k2 b2 k3 b3) =
    [ Flatten;
      Dense 16 (Some relu) (Some (tvar 0 k1, tvar 1 b1));
      Dense 16 (Some relu) (Some (tvar 2 k2, tvar 3 b2));
      Dense 10 None (Some (tvar 4 k3, tvar 5 b3)) ].
Proof. done. Qed.

(** The forward pass under the tape goes through: the loss is recorded. *)
Lemma loss_fitted_recorded :
  is_Some (loss (watch (fitted_model k1 b1 k2 b2 k3 b3)) (tconst features) labels).
Proof.
  destruct Hfit as (Hk1 & Hb1 & Hk2 & Hb2 & Hk3 & Hb3 & _).
  rewrite watch_fitted. unfold loss. cbn [call_model].
  rewrite (call_Flatten (tconst features) n rest) by done.
  cbn [mbind option_bind]. rewrite Hrest.
  destruct (call_Dense_shape 16 (Some relu) (tvar 0 k1) (tvar 1 b1)
              (Tensor [n; d] (data (tconst features))) n d 16)
    as (y1 & -> & Hs1); [done..|].
  cbn [mbind option_bind].
  destruct (call_Dense_shape 16 (Some relu) (tvar 2 k2) (tvar 3 b2) y1 n 16 16)
    as (y2 & -> & Hs2); [done..|].
  cbn [mbind option_bind].
  destruct (call_Dense_shape 10 None (tvar 4 k3) (tvar 5 b3) y2 n 16 10)
    as (y3 & -> & Hs3); [done..|].
  cbn [mbind option_bind]. by eapply loss_object_Some.
Qed.

End FittedTape.

Section FittedHessian.
Variables (k1 b1 k2 b2 k3 b3 : tensor Qc) (d : nat).
Hypothesis Hfit : fitted_shapes d k1 b1 k2 b2 k3 b3.
Variables fexp flog : Qc → Qc.
Variables (features : tensor Qc) (labels : list nat).

Let model := fitted_model k1 b1 k2 b2 k3 b3.
Let W := tvar 2 k2.

Lemma length_kernel : length (data k2) = 16 * 16.
Proof.
  destruct Hfit as (_ & _ & Hk2 & _ & _ & _ & _ & _ & Hw2 & _).
  unfold well_shaped in Hw2. rewrite Hw2, Hk2. cbn [numel foldr]. lia.
Qed.

Lemma T2_compute_fitted L :
  loss (watch model) (tconst features) labels = Some L →
  T2_compute fexp flog model features labels (-4) =
    Some (tmap (eval fexp flog (env_of model)) (jacobian (gradient L W) W)).
Proof.
  intros HL. unfold T2_compute. rewrite HL. cbn [mbind option_bind].
  change (py_index (trainable_variables (watch model)) (-4)) with (Some W).
  done.
Qed.

Lemma shape_hessian_4 L :
  shape (tmap (eval fexp flog (env_of model)) (jacobian (gradient L W) W))
  = [16; 16; 16; 16].
Proof.
  destruct Hfit as (_ & _ & Hk2 & _).
  cbn [shape tmap jacobian gradient]. unfold W. rewrite shape_tvar, Hk2. done.
Qed.

(** Entry [(a, p)] of the Jacobian of the gradient, read as a matrix. *)
Lemma nth_hessian L a p :
  a < 16 * 16 → p < 16 * 16 →
  nth (a * (16 * 16) + p)
    (data (tmap (eval fexp flog (env_of model)) (jacobian (gradient L W) W))) 0%Qc
  = eval fexp flog (env_of model) (deriv (deriv L (2, a)) (2, p)).
Proof.
  intros Ha Hp. pose proof length_kernel as Hlen.
  assert (length (data (gradient L W)) = 16 * 16) as Hg.
  { unfold W. by rewrite length_gradient_tvar. }
  rewrite nth_tmap_eval.
  - rewrite <- Hlen at 1. unfold W at 2.
    rewrite nth_jacobian_tvar by (rewrite ?Hg, ?Hlen; done).
    unfold W. by rewrite nth_gradient_tvar by (by rewrite Hlen).
  - unfold W at 2. rewrite length_jacobian_tvar, Hg, Hlen. nia.
Qed.

Lemma hessian_fitted L :
  loss (watch model) (tconst features) labels = Some L →
  hessian fexp flog model features labels =
    Some (Tensor [16 * 16; 16 * 16]
            (data (tmap (eval fexp flog (env_of model)) (jacobian (gradient L W) W)))).
Proof.
  intros HL. unfold hessian. rewrite (T2_compute_fitted L HL).
  cbn [mbind option_bind]. rewrite shape_hessian_4.
  cbn [lookup list_lookup mbind option_bind].
  apply tf_reshape_Some. pose proof length_kernel as Hlen.
  cbn [numel foldr tmap data]. rewrite length_map.
  unfold W at 2. rewrite length_jacobian_tvar. unfold W.
  rewrite length_gradient_tvar, Hlen. lia.
Qed.

End FittedHessian.



(** C6.  The 256 × 256 Hessian is symmetric. *)
Theorem hessian_symmetric (fexp flog : Qc → Qc)
    (k1 b1 k2 b2 k3 b3 features : tensor Qc) (labels : list nat)
    (d n : nat) (rest : list nat) :
  fitted_shapes d k1 b1 k2 b2 k3 b3 →
  shape features = n :: rest → numel rest = d → length labels = n →
  ∃ H,
    hessian fexp flog (fitted_model k1 b1 k2 b2 k3 b3) features labels = Some H ∧
    shape H = [256; 256] ∧
    ∀ i j, i < 256 → j < 256 → tget 0%Qc H [i; j] = tget 0%Qc H [j; i].
Proof.
  intros Hfit Hfeat Hrest Hlab.
  destruct (loss_fitted_recorded k1 b1 k2 b2 k3 b3 d Hfit features labels n rest
              Hfeat Hrest Hlab) as [L HL].
  eexists. split; [by apply (hessian_fitted k1 b1 k2 b2 k3 b3 d)|]. split; [done|].
  intros i j Hi Hj. unfold tget. cbn [shape data]. rewrite !offset_2.
  change 256 with (16 * 16) in Hi, Hj.
  rewrite !(nth_hessian k1 b1 k2 b2 k3 b3 d Hfit) by done.
  apply deriv_comm.
Qed.

Lemma hessian_symmetric_witness :
  fitted_shapes 784 ex_k1 ex_b1 ex_k2 ex_b2 ex_k3 ex_b3 ∧
  ∃ H, hessian (λ x, x) (λ x, x) ex_model ex_features ex_labels = Some H ∧
       tget 0%Qc H [3; 200] = tget 0%Qc H [200; 3].
Proof.
  split; [exact ex_fitted_shapes|].
  destruct (hessian_symmetric (λ x, x) (λ x, x) ex_k1 ex_b1 ex_k2 ex_b2 ex_k3 ex_b3
              ex_features ex_labels 784 1 [28; 28; 1] ex_fitted_shapes
              eq_refl eq_refl eq_refl) as (H & HH & _ & Hsym).
  exists H. split; [exact HH|]. apply Hsym; lia.
Defined.

(** ** Derivative tensors of the reparametrized model *)

Section ModelCTape.
Variables (k1 b1 k2 b2 k3 b3 : tensor Qc) (d : nat).
Hypothesis Hfit : fitted_shapes d k1 b1 k2 b2 k3 b3.
Variables (direction_vectors features : tensor Qc) (labels : list nat).
Variables (n : nat) (rest : list nat).
Hypothesis Hfeatures : shape features = n :: rest.
Hypothesis Hrest : numel rest = d.
Hypothesis Hlabels : length labels = n.
Variable act : option activation.

Let model_c :=
  model_c_at k1 b1 k2 b2 k3 b3 direction_vectors act (tf_zeros [2]).

(** The coordinates on the tape. *)
Let t := Tensor [2] [Var 2 0; Var 2 1].

Lemma watch_model_c :
  watch model_c =
    [ Flatten;
      Dense 16 (Some relu) (Some (tvar 0 k1, tvar 1 b1));
      CustomLayer (tconst k2, tconst b2)
        (tconst (Tensor [2; 16; 16] (data direction_vectors))) act (Some t);
      Dense 10 None (Some (tvar 3 k3, tvar 4 b3)) ].
Proof. done. Qed.

Lemma loss_model_c_recorded :
  is_Some (loss (watch model_c) (tconst features) labels).
Proof.
  destruct Hfit as (Hk1 & Hb1 & Hk2 & Hb2 & Hk3 & Hb3 & _).
  rewrite watch_model_c. unfold loss. cbn [call_model].
  rewrite (call_Flatten (tconst features) n rest) by done.
  cbn [mbind option_bind]. rewrite Hrest.
  destruct (call_Dense_shape 16 (Some relu) (tvar 0 k1) (tvar 1 b1)
              (Tensor [n; d] (data (tconst features))) n d 16)
    as (y1 & -> & Hs1); [done..|].
  cbn [mbind option_bind].
  destruct (call_CustomLayer_shape (tconst k2) (tconst b2)
              (tconst (Tensor [2; 16; 16] (data direction_vectors))) act t
              y1 n 16 16 2) as (y2 & -> & Hs2); [done..|].
  cbn [mbind option_bind].
  destruct (call_Dense_shape 10 None (tvar 3 k3) (tvar 4 b3) y2 n 16 10)
    as (y3 & -> & Hs3); [done..|].
  cbn [mbind option_bind]. by eapply loss_object_Some.
Qed.

End ModelCTape.

Section ModelCTensors.
Variables (k1 b1 k2 b2 k3 b3 direction_vectors features : tensor Qc).
Variables (labels : list nat) (act : option activation).
Variables fexp flog : Qc → Qc.

Let model_c :=
  model_c_at k1 b1 k2 b2 k3 b3 direction_vectors act (tf_zeros [2]).
Let t := Tensor [2] [Var 2 0; Var 2 1].
Let ρ := env_of model_c.

Lemma T4_compute_model_c L :
  loss (watch model_c) (tconst features) labels = Some L →
  T4_compute fexp flog model_c features labels (-3) =
    Some (tmap (eval fexp flog ρ) (jacobian (gradient L t) t),
          tmap (eval fexp flog ρ) (jacobian (jacobian (gradient L t) t) t),
          tmap (eval fexp flog ρ)
            (jacobian (jacobian (jacobian (gradient L t) t) t) t)).
Proof.
  intros HL. unfold T4_compute. fold model_c. rewrite HL.
  cbn [mbind option_bind].
  change (py_index (trainable_variables (watch model_c)) (-3)) with (Some t).
  done.
Qed.

(** The three tensors, entry by entry. *)
Lemma T4_entries L i j k l :
  i < 2 → j < 2 → k < 2 → l < 2 →
  tget 0%Qc (tmap (eval fexp flog ρ) (jacobian (gradient L t) t)) [i; j] =
    eval fexp flog ρ (deriv (deriv L (2, i)) (2, j)) ∧
  tget 0%Qc (tmap (eval fexp flog ρ) (jacobian (jacobian (gradient L t) t) t))
       [i; j; k] =
    eval fexp flog ρ (deriv (deriv (deriv L (2, i)) (2, j)) (2, k)) ∧
  tget 0%Qc
       (tmap (eval fexp flog ρ)
          (jacobian (jacobian (jacobian (gradient L t) t) t) t)) [i; j; k; l] =
    eval fexp flog ρ (deriv (deriv (deriv (deriv L (2, i)) (2, j)) (2, k)) (2, l)).
Proof.
  intros Hi Hj Hk Hl.
  destruct i as [|[|i]]; try lia; destruct j as [|[|j]]; try lia;
    destruct k as [|[|k]]; try lia; destruct l as [|[|l]]; try lia;
    by split_and!.
Qed.

End ModelCTensors.



(** ** The data and the first call of the model *)

Lemma well_shaped_fresh {F} (init : nat → nat → F) id sh :
  length (data (fresh init id sh)) = numel sh.
Proof. unfold fresh. cbn [data]. by rewrite length_map, length_seq. Qed.

Lemma scaled_pixel (x : Qc) :
  (0 ≤ x)%Qc ∧ (x ≤ Q2Qc 255)%Qc →
  (0 ≤ x / Q2Qc 255)%Qc ∧ (x / Q2Qc 255 ≤ 1)%Qc.
Proof.
  intros [H0 H1]. unfold Qcdiv.
  assert (0 ≤ / Q2Qc 255)%Qc as Hinv by (by vm_compute).
  split.
  - replace 0%Qc with (0 * / Q2Qc 255)%Qc by ring.
    by apply Qcmult_le_mono_nonneg_r.
  - replace 1%Qc with (Q2Qc 255 * / Q2Qc 255)%Qc
      by (apply Qc_is_canon; vm_compute; reflexivity).
    by apply Qcmult_le_mono_nonneg_r.
Qed.

(** X1.  The preparation of the images.  An array of [n] images, [n] not zero,
    goes through exactly when each image has 784 pixels; the result has shape
    (n, 28, 28, 1), its entries are the pixels divided by 255, in the same
    order, so that pixels from 0 to 255 become features from 0 to 1; and
    [Flatten] hands the model one row of 784 features per image, the same
    rows it would get without the reshape. *)
Theorem prepare_features_scaled (raw : tensor Qc) (n : nat) (dims : list nat) :
  shape raw = n :: dims → well_shaped raw →
  (0 < n → numel dims ≠ 784 → prepare_features raw = None) ∧
  (numel dims = 784 →
     ∃ features,
       prepare_features raw = Some features ∧
       shape features = [n; 28; 28; 1] ∧ well_shaped features ∧
       data features = map (λ x, (x / Q2Qc 255)%Qc) (data raw) ∧
       (Forall (λ x, (0 ≤ x)%Qc ∧ (x ≤ Q2Qc 255)%Qc) (data raw) →
        Forall (λ x, (0 ≤ x)%Qc ∧ (x ≤ 1)%Qc) (data features)) ∧
       call Flatten features = Some (Tensor [n; 784] (data features)) ∧
       call Flatten features = call Flatten (np_divide raw (Q2Qc 255))).
Proof.
  intros Hs Hw. unfold well_shaped in Hw. rewrite Hs in Hw.
  cbn [numel foldr] in Hw. fold (numel dims) in Hw.
  unfold prepare_features, np_divide, tf_reshape, tmap.
  cbn [shape data]. rewrite Hs. cbn [lookup list_lookup mbind option_bind].
  rewrite length_map, Hw.
  assert (numel [n; 28; 28; 1] = n * 784) as -> by (cbn [numel foldr]; lia).
  split.
  - intros Hn Hne. rewrite decide_False; [done|]. nia.
  - intros He. rewrite decide_True by (by rewrite He).
    eexists. split; [done|]. cbn [shape data].
    split_and!; [done| |done| | |].
    + unfold well_shaped. cbn [shape data numel foldr].
      rewrite length_map, Hw, He. lia.
    + intros Hall. apply Forall_map.
      eapply list.Forall_impl; [exact Hall|]. intros x Hx. by apply scaled_pixel.
    + done.
    + cbn [call shape data]. by rewrite He.
Qed.

Lemma prepare_features_scaled_witness :
  ∃ features,
    prepare_features (Tensor [1; 28; 28] (replicate 784 (Q2Qc 255)))
      = Some features ∧
    shape features = [1; 28; 28; 1] ∧
    Forall (λ x, (0 ≤ x)%Qc ∧ (x ≤ 1)%Qc) (data features).
Proof.
  destruct (prepare_features_scaled (Tensor [1; 28; 28] (replicate 784 (Q2Qc 255)))
              1 [28; 28] eq_refl eq_refl) as [_ Hsome].
  destruct (Hsome eq_refl) as (features & Hp & Hs & _ & _ & Hrange & _).
  exists features. split_and!; [exact Hp|exact Hs|].
  apply Hrange. apply Forall_replicate. split; by vm_compute.
Defined.

(** X2.  The first call of [model], which [model.fit] makes: on a batch of [n]
    examples it creates the six weights with the shapes the layers ask for,
    the first kernel taking as many rows as an example has entries, and it
    returns [n] rows of 10 logits.  Training changes the values of the
    weights, not their shapes. *)
Theorem model_first_call_builds (init : nat → nat → Qc) (features : tensor Qc)
    (n : nat) (dims : list nat) :
  shape features = n :: dims →
  ∃ k1 b1 k2 b2 k3 b3 out,
    first_call init model_layers features
      = Some (fitted_model k1 b1 k2 b2 k3 b3, out) ∧
    fitted_shapes (numel dims) k1 b1 k2 b2 k3 b3 ∧
    shape out = [n; 10] ∧
    call_model (fitted_model k1 b1 k2 b2 k3 b3) features = Some out ∧
    x_star_of (fitted_model k1 b1 k2 b2 k3 b3) = [[]; [k1; b1]; [k2; b2]; [k3; b3]] ∧
    trainable_variables (fitted_model k1 b1 k2 b2 k3 b3) = [k1; b1; k2; b2; k3; b3].
Proof.
  intros Hfeatures.
  exists (fresh init 2 [numel dims; 16]), (fresh init 3 [16]),
    (fresh init 4 [16; 16]), (fresh init 5 [16]),
    (fresh init 6 [16; 10]), (fresh init 7 [10]).
  unfold first_call, model_layers, fitted_model.
  cbn [first_call_from build call_model mbind option_bind].
  rewrite (call_Flatten features n dims Hfeatures).
  cbn [mbind option_bind shape].
  change (2 * 1) with 2. change (2 + 1) with 3. change (2 * 2) with 4.
  change (4 + 1) with 5. change (2 * 3) with 6. change (6 + 1) with 7.
  destruct (call_Dense_shape 16 (Some relu) (fresh init 2 [numel dims; 16])
              (fresh init 3 [16]) (Tensor [n; numel dims] (data features))
              n (numel dims) 16) as (y1 & Hy1 & Hs1); [done..|].
  rewrite Hy1. cbn [mbind option_bind]. rewrite Hs1. cbn [mbind option_bind].
  destruct (call_Dense_shape 16 (Some relu) (fresh init 4 [16; 16])
              (fresh init 5 [16]) y1 n 16 16) as (y2 & Hy2 & Hs2); [done..|].
  rewrite Hy2. cbn [mbind option_bind]. rewrite Hs2. cbn [mbind option_bind].
  destruct (call_Dense_shape 10 None (fresh init 6 [16; 10])
              (fresh init 7 [10]) y2 n 16 10) as (y3 & Hy3 & Hs3); [done..|].
  rewrite Hy3. cbn [mbind option_bind].
  exists y3. split_and!; [done| |done..].
  unfold fitted_shapes, well_shaped. cbn [shape].
  by rewrite !well_shaped_fresh.
Qed.

Lemma model_first_call_builds_witness :
  ∃ k1 b1 k2 b2 k3 b3 out,
    first_call (λ _ _, 1%Qc) model_layers ex_features
      = Some (fitted_model k1 b1 k2 b2 k3 b3, out) ∧
    fitted_shapes 784 k1 b1 k2 b2 k3 b3 ∧ shape out = [1; 10].
Proof.
  destruct (model_first_call_builds (λ _ _, 1%Qc) ex_features 1 [28; 28; 1] eq_refl)
    as (k1 & b1 & k2 & b2 & k3 & b3 & out & Hc & Hf & Hs & _).
  exists k1, b1, k2, b2, k3, b3, out. split_and!; assumption.
Defined.

(** ** Calling a model again *)





(** ** The loss and what the derivative functions need *)

Lemma forward_fitted {F} `{Scalar F} (k1 b1 k2 b2 k3 b3 x : tensor F) d n dims :
  shape k1 = [d; 16] → shape b1 = [16] → shape k2 = [16; 16] → shape b2 = [16] →
  shape k3 = [16; 10] → shape b3 = [10] →
  shape x = n :: dims → numel dims = d →
  ∃ h z y,
    call_model [Flatten; Dense 16 (Some relu) (Some (k1, b1))] x = Some h ∧
    shape h = [n; 16] ∧
    call (Dense 16 None (Some (k2, b2))) h = Some z ∧ shape z = [n; 16] ∧
    call_model [ Flatten; Dense 16 (Some relu) (Some (k1, b1));
                 Dense 16 (Some relu) (Some (k2, b2));
                 Dense 10 None (Some (k3, b3)) ] x = Some y ∧
    shape y = [n; 10].
Proof.
  intros Hk1 Hb1 Hk2 Hb2 Hk3 Hb3 Hx Hdims. cbn [call_model].
  rewrite (call_Flatten x n dims Hx). cbn [mbind option_bind]. rewrite Hdims.
  destruct (call_Dense_shape 16 (Some relu) k1 b1 (Tensor [n; d] (data x)) n d 16)
    as (h & Hh & Hsh); [done..|].
  rewrite Hh. cbn [mbind option_bind].
  destruct (call_Dense_shape 16 None k2 b2 h n 16 16) as (z & Hz & Hsz); [done..|].
  destruct (call_Dense_shape 16 (Some relu) k2 b2 h n 16 16)
    as (y2 & Hy2 & Hs2); [done..|].
  rewrite Hy2. cbn [mbind option_bind].
  destruct (call_Dense_shape 10 None k3 b3 y2 n 16 10) as (y & Hy & Hsy); [done..|].
  rewrite Hy. cbn [mbind option_bind]. by exists h, z, y.
Qed.

Section RealLoss.
Open Scope R_scope.

Lemma Qc2R_nonneg (c : Qc) : (0 ≤ c)%Qc → 0 <= Qc2R c.
Proof.
  intros Hc. rewrite <- Qc2R_0. unfold Qc2R. by apply Qreals.Qle_Rle.
Qed.

Lemma batch_factor_nonneg (b : nat) :
  0 <= Qc2R (/ Q2Qc (inject_Z (Z.of_nat b)))%Qc.
Proof.
  apply Qc2R_nonneg. unfold Qcle, Qcinv. cbn [this Q2Qc].
  rewrite !Qred_correct. apply Qinv_le_0_compat.
  unfold Qle. simpl. lia.
Qed.

Lemma ssum_R_nonneg (l : list R) : Forall (λ x, 0 <= x) l → 0 <= ssum l.
Proof.
  induction 1 as [|x l Hx _ IH]; unfold ssum in *;
    cbn [foldr sadd sconst R_scalar] in *; [rewrite Qc2R_0; lra|lra].
Qed.

Lemma ssum_R_ge_term (g : nat → R) (l : list nat) y :
  (∀ j, 0 <= g j) → In y l → g y <= ssum (map g l).
Proof.
  intros Hg. induction l as [|j l IH]; [done|].
  assert (0 <= ssum (map g l)) as Hrest.
  { apply ssum_R_nonneg. apply Forall_map. apply Forall_forall. intros; apply Hg. }
  intros [->|Hin].
  - unfold ssum in *. cbn [map foldr sadd sconst R_scalar] in *. lra.
  - specialize (IH Hin). specialize (Hg j).
    unfold ssum in *. cbn [map foldr sadd sconst R_scalar] in *. lra.
Qed.

Lemma ln_le (a b : R) : 0 < a → a <= b → ln a <= ln b.
Proof.
  intros Ha [Hlt| ->]; [|lra]. left. by apply ln_increasing.
Qed.

(** The cross-entropy of an example is not negative: the sum of the
    exponentials of its logits is at least the exponential of the logit of
    its class. *)
Lemma cross_entropy_term_nonneg (z : nat → R) (c y : nat) :
  (y < c)%nat →
  0 <= sadd (slog (ssum (map (λ j, sexp (z j)) (seq 0 c))))
            (smul (sconst (- (1))%Qc) (z y)).
Proof.
  intros Hy. cbn [sadd smul slog sexp sconst R_scalar R_transcendental].
  rewrite Qc2R_m1.
  assert (exp (z y) <= ssum (map (λ j, exp (z j)) (seq 0 c))) as Hsum.
  { apply (ssum_R_ge_term (λ j, exp (z j))).
    - intros j. left. apply exp_pos.
    - apply in_seq. lia. }
  pose proof (ln_le _ _ (exp_pos (z y)) Hsum) as Hln.
  rewrite ln_exp in Hln. lra.
Qed.

Lemma loss_object_nonneg (y_true : list nat) (y_pred : tensor R) (b c : nat) (l : R) :
  shape y_pred = [b; c] → Forall (λ y, (y < c)%nat) y_true →
  loss_object y_true y_pred = Some l → 0 <= l.
Proof.
  intros Hs Hy. unfold loss_object. rewrite Hs.
  case_decide as Hlen; [|done]. intros [= <-].
  cbn [smul R_scalar]. apply Rmult_le_pos; [apply batch_factor_nonneg|].
  apply ssum_R_nonneg. apply list.Forall_forall. intros t Ht.
  apply elem_of_lookup_imap in Ht as (i & y & -> & Hiy).
  apply (cross_entropy_term_nonneg (λ j, tnth y_pred (i * c + j)) c y).
  by apply (Forall_lookup_1 _ _ _ _ Hy Hiy).
Qed.

End RealLoss.

(** X4.  Whatever values the weights of the network take, its loss on a batch
    whose labels are classes from 0 to 9 is defined and is not negative:
    the value at the minimizer [x_star] is bounded below by 0.  (Over the
    reals, with the real exponential and logarithm.) *)
Theorem network_loss_nonnegative (ρ : nat → nat → R)
    (k1 b1 k2 b2 k3 b3 features : tensor Qc) (labels : list nat)
    (d n : nat) (dims : list nat) :
  fitted_shapes d k1 b1 k2 b2 k3 b3 →
  shape features = n :: dims → numel dims = d →
  length labels = n → Forall (λ y, y < 10) labels →
  ∃ l : R,
    loss (network_at ρ (fitted_model k1 b1 k2 b2 k3 b3)) (tmap Qc2R features) labels
      = Some l ∧
    (0 <= l)%R.
Proof.
  intros Hfit Hfeat Hdims Hlab Hrange.
  pose proof Hfit as (Hk1 & Hb1 & Hk2 & Hb2 & Hk3 & Hb3 & _).
  destruct (forward_fitted
              (tmap (evalR ρ) (tvar 0 k1)) (tmap (evalR ρ) (tvar 1 b1))
              (tmap (evalR ρ) (tvar 2 k2)) (tmap (evalR ρ) (tvar 3 b2))
              (tmap (evalR ρ) (tvar 4 k3)) (tmap (evalR ρ) (tvar 5 b3))
              (tmap Qc2R features) d n dims)
    as (_ & _ & y & _ & _ & _ & _ & Hy & Hsy); [done..|].
  assert (loss (network_at ρ (fitted_model k1 b1 k2 b2 k3 b3))
            (tmap Qc2R features) labels = loss_object labels y) as HL.
  { unfold loss.
    change (network_at ρ (fitted_model k1 b1 k2 b2 k3 b3)) with
      [ Flatten;
        Dense 16 (Some relu)
          (Some (tmap (evalR ρ) (tvar 0 k1), tmap (evalR ρ) (tvar 1 b1)));
        Dense 16 (Some relu)
          (Some (tmap (evalR ρ) (tvar 2 k2), tmap (evalR ρ) (tvar 3 b2)));
        Dense 10 None
          (Some (tmap (evalR ρ) (tvar 4 k3), tmap (evalR ρ) (tvar 5 b3))) ].
    by rewrite Hy. }
  destruct (loss_object_Some labels y n 10 Hsy Hlab) as [l Hl].
  exists l. rewrite HL. split; [done|].
  by apply (loss_object_nonneg labels y n 10 l).
Qed.

Lemma network_loss_nonnegative_witness :
  ∃ l : R,
    loss (network_at (λ _ _, 0%R) ex_model) (tmap Qc2R ex_features) ex_labels = Some l ∧
    (0 <= l)%R.
Proof.
  apply (network_loss_nonnegative (λ _ _, 0%R) ex_k1 ex_b1 ex_k2 ex_b2 ex_k3 ex_b3
           ex_features ex_labels 784 1 [28; 28; 1] ex_fitted_shapes);
    [reflexivity..|].
  repeat constructor.
Defined.



(** ** The selected directions *)

Lemma np_column_entries (v : tensor Qc) (N : nat) (j : Z) (col : list Qc) :
  shape v = [N; N] → np_column v j = Some col →
  ∃ c, np_index N j = Some c ∧ c < N ∧ length col = N ∧
       ∀ i, i < N → nth i col 0%Qc = tget 0%Qc v [i; c].
Proof.
  intros Hv. unfold np_column. rewrite Hv.
  destruct (np_index N j) as [c|] eqn:Hc; [|done]. simpl. intros [= <-].
  exists c. split; [done|].
  assert (c < N) as Hlt.
  { unfold np_index in Hc. repeat case_decide; simplify_eq; lia. }
  split; [done|]. split; [by rewrite length_map, length_seq|].
  intros i Hi. unfold tget. rewrite Hv, offset_2.
  rewrite (nth_indep _ 0%Qc ((λ i, nth (i * N + c) (data v) 0%Qc) 0))
    by (by rewrite length_map, length_seq).
  rewrite (map_nth (λ i, nth (i * N + c) (data v) 0%Qc) (seq 0 N) 0 i).
  by rewrite seq_nth.
Qed.

(** X6.  The two rows of [direction_vectors] are columns of [v]: row 1 is the
    column after the position found, and row 0 the column before it, which
    is the last column when the position found is 0. *)
Theorem select_directions_rows_are_columns (w : list Qc) (v dv : tensor Qc) (N : nat) :
  shape v = [N; N] → select_directions w v = Some dv →
  ∃ index,
    np_argmax (np_less w threshold) = Some index ∧ index + 1 < N ∧
    shape dv = [2; N] ∧ well_shaped dv ∧ nb_directions dv = 2 ∧
    ∀ i, i < N →
      tget 0%Qc dv [0; i] =
        tget 0%Qc v [i; if decide (index = 0) then N - 1 else index - 1] ∧
      tget 0%Qc dv [1; i] = tget 0%Qc v [i; index + 1].
Proof.
  intros Hv Hsel.
  destruct (select_directions_shape w v dv N Hv Hsel) as (Hs & Hw & Hnb).
  revert Hsel. unfold select_directions.
  destruct (np_argmax (np_less w threshold)) as [index|]; [|done]. simpl.
  destruct (np_column v (Z.of_nat index - 1)) as [d1|] eqn:Hd1; [|done]. simpl.
  destruct (np_column v (Z.of_nat index + 1)) as [d2|] eqn:Hd2; [|done]. simpl.
  intros [= <-].
  destruct (np_column_entries v N _ d1 Hv Hd1) as (c1 & Hc1 & Hlt1 & Hl1 & He1).
  destruct (np_column_entries v N _ d2 Hv Hd2) as (c2 & Hc2 & Hlt2 & Hl2 & He2).
  assert (c2 = index + 1) as ->.
  { unfold np_index in Hc2. repeat case_decide; simplify_eq; lia. }
  assert (c1 = if decide (index = 0) then N - 1 else index - 1) as ->.
  { unfold np_index in Hc1. repeat case_decide; simplify_eq; lia. }
  exists index. split_and!; [done..|].
  intros i Hi. unfold tget at 1 3. unfold tf_stack.
  cbn [shape data concat length hd]. rewrite Hl1, !offset_2, app_nil_r.
  split.
  - rewrite app_nth1 by lia. by apply He1.
  - rewrite app_nth2 by lia. replace (1 * N + i - length d1) with i by lia.
    by apply He2.
Qed.

Lemma select_directions_rows_are_columns_witness :
  ∃ dv, select_directions w_gap v_gap = Some dv ∧
        tget 0%Qc dv [0; 1] = tget 0%Qc v_gap [1; 1] ∧
        tget 0%Qc dv [1; 3] = tget 0%Qc v_gap [3; 3].
Proof.
  eassert (select_directions w_gap v_gap = Some _) as Hsel
    by (vm_compute; reflexivity).
  eexists. split; [exact Hsel|].
  destruct (select_directions_rows_are_columns w_gap v_gap _ 4 eq_refl Hsel)
    as (index & Hi & _ & _ & _ & _ & Hent).
  assert (index = 2) as -> by (vm_compute in Hi; congruence).
  split; [apply (Hent 1); lia|apply (Hent 3); lia].
Defined.

(** X7.  On a spectrum in decreasing order with a gap, the step does what the
    notebook's comment announces: when the first eigenvalue below [1e-6] is
    neither the first nor the last entry, the eigenvalue of the first
    selected direction is at least [1e-6] and the eigenvalue of the second
    is below it.  ([np.linalg.eig] does not promise any order.) *)
Theorem select_directions_sorted_spectrum (w : list Qc) (v : tensor Qc)
    (N index : nat) :
  length w = N → shape v = [N; N] →
  (∀ i j x y, i ≤ j → w !! i = Some x → w !! j = Some y → (y ≤ x)%Qc) →
  np_argmax (np_less w threshold) = Some index →
  0 < index → index + 1 < N →
  ∃ x y z dv,
    w !! (index - 1) = Some x ∧ (threshold ≤ x)%Qc ∧
    w !! index = Some y ∧ (y < threshold)%Qc ∧
    w !! (index + 1) = Some z ∧ (z < threshold)%Qc ∧
    select_directions w v = Some dv.
Proof.
  intros Hlen Hv Hsorted Ha Hpos Hnext.
  assert (w ≠ []) as Hw by (intros ->; simpl in Hlen; lia).
  destruct (np_argmax_below w Hw) as (index' & Ha' & _ & Hcase).
  rewrite Ha in Ha'. injection Ha' as <-.
  destruct Hcase as [Hf|[-> _]]; [|lia].
  apply first_index_Some in Hf as [(y & Hy & Hby) Hbefore].
  apply bool_decide_eq_true in Hby.
  destruct (lookup_lt_is_Some_2 w (index - 1)) as [x Hx]; [lia|].
  destruct (lookup_lt_is_Some_2 w (index + 1)) as [z Hz]; [lia|].
  assert (is_Some (select_directions w v)) as [dv Hdv].
  { unfold select_directions. rewrite Ha. simpl.
    assert (is_Some (np_column v (Z.of_nat index - 1))) as [d1 ->].
    { rewrite (np_column_Some v N N) by done. apply np_index_Some. lia. }
    assert (is_Some (np_column v (Z.of_nat index + 1))) as [d2 ->].
    { rewrite (np_column_Some v N N) by done. apply np_index_Some. lia. }
    by eexists. }
  exists x, y, z, dv. split_and!; [done| |done|done|done| |done].
  - apply Qcnot_lt_le. intros Hlt.
    specialize (Hbefore (index - 1) x ltac:(lia) Hx).
    by apply bool_decide_eq_false in Hbefore.
  - eapply Qcle_lt_trans; [|exact Hby].
    apply (Hsorted index (index + 1) y z); [lia|done..].
Qed.

Lemma select_directions_sorted_spectrum_witness :
  ∃ x z dv,
    w_gap !! 1 = Some x ∧ (threshold ≤ x)%Qc ∧
    w_gap !! 3 = Some z ∧ (z < threshold)%Qc ∧
    select_directions w_gap v_gap = Some dv.
Proof.
  destruct (select_directions_sorted_spectrum w_gap v_gap 4 2 eq_refl eq_refl)
    as (x & y & z & dv & Hx & Hxt & _ & _ & Hz & Hzt & Hdv).
  - intros i j x y Hij Hi Hj.
    destruct i as [|[|[|[|i]]]]; destruct j as [|[|[|[|j]]]];
      simpl in Hi, Hj; try done; try lia; simplify_eq; by vm_compute.
  - vm_compute. reflexivity.
  - lia.
  - lia.
  - exists x, z, dv. split_and!; assumption.
Defined.

(** ** The histogram of the eigenvalues *)

Section Histogram.

Let floor_value : Qc := Q2Qc (1 # 10000000000).
Let second_edge : Qc := Q2Qc (1 # 1000000000).

Lemma w_hist_cons x w :
  w_hist (x :: w) =
    (if bool_decide (0 < x)%Qc then x else floor_value) :: w_hist w.
Proof. done. Qed.

(** The edges of the bins: the eleven powers of ten from [1e-10] to 1. *)
Lemma bins_edges :
  bins = map (λ k, Q2Qc (1 # k))
           [10000000000; 1000000000; 100000000; 10000000; 1000000; 100000;
            10000; 1000; 100; 10; 1]%positive.
Proof.
  unfold bins. cbn [np_arange map seq Z.to_nat Z.sub]. simpl map.
  repeat (f_equal; [apply Qc_is_canon; vm_compute; reflexivity|]). done.
Qed.

Lemma in_bin_first y :
  in_bin bins 0 y =
    bool_decide (floor_value ≤ y)%Qc && bool_decide (y < second_edge)%Qc.
Proof.
  rewrite bins_edges. unfold in_bin. cbn [map lookup list_lookup length].
  rewrite (bool_decide_eq_false_2 (2 = 11)) by lia.
  by rewrite andb_false_l, orb_false_r.
Qed.

Lemma in_bin_above y i : (1 < y)%Qc → in_bin bins i y = false.
Proof.
  intros Hy. rewrite bins_edges. unfold in_bin.
  do 10 (destruct i as [|i];
    [cbn [map lookup list_lookup];
     rewrite (bool_decide_eq_false_2 (y < _)%Qc);
       [rewrite (bool_decide_eq_false_2 (y = _));
          [by rewrite andb_false_r, ?orb_false_r
          |intros ->; revert Hy; by vm_compute]
       |intros Hlt; apply (Qclt_not_le _ _ Hlt);
        eapply Qcle_trans; [|apply Qclt_le_weak, Hy]; by vm_compute]
    |]).
  cbn [map lookup list_lookup]. by destruct i.
Qed.

Lemma in_bin_below y i : (y < floor_value)%Qc → in_bin bins i y = false.
Proof.
  intros Hy. rewrite bins_edges. unfold in_bin.
  do 10 (destruct i as [|i];
    [cbn [map lookup list_lookup];
     rewrite (bool_decide_eq_false_2 (_ ≤ y)%Qc);
       [done
       |intros Hle; apply (Qclt_not_le _ _ Hy);
        eapply Qcle_trans; [|exact Hle]; by vm_compute]
    |]).
  cbn [map lookup list_lookup]. by destruct i.
Qed.


Lemma first_bar_counts x :
  in_bin bins 0 (if bool_decide (0 < x)%Qc then x else floor_value) = true ↔
  (x ≤ 0)%Qc ∨ (floor_value ≤ x)%Qc ∧ (x < second_edge)%Qc.
Proof.
  rewrite in_bin_first, andb_true_iff, !bool_decide_eq_true.
  case_bool_decide as Hx.
  - split; [by right|]. intros [H0|H1]; [|done].
    by destruct (Qclt_not_le _ _ Hx).
  - split; [intros _; left; by apply Qcnot_lt_le|].
    intros _. split; [apply Qcle_refl|by vm_compute].
Qed.

(** X8.  Every entry of [w_hist] is positive, so that each has a place on the
    logarithmic axis: a positive eigenvalue is kept, any other is moved to
    [1e-10], the lowest edge of the bins. *)
Theorem w_hist_positive (w : list Qc) :
  length (w_hist w) = length w ∧
  Forall (λ x, (0 < x)%Qc) (w_hist w) ∧
  (∀ i x, w !! i = Some x → (0 < x)%Qc → w_hist w !! i = Some x) ∧
  (∀ i x, w !! i = Some x → ¬ (0 < x)%Qc →
     w_hist w !! i = Some (Q2Qc (1 # 10000000000)) ∧
     w_hist w !! i = bins !! 0).
Proof.
  split_and!.
  - induction w as [|x w IH]; [done|]. rewrite w_hist_cons. simpl. by rewrite IH.
  - induction w as [|x w IH]; [by constructor|]. rewrite w_hist_cons.
    constructor; [|done]. case_bool_decide; [done|by vm_compute].
  - induction w as [|y w IH]; intros i x Hi Hx; [done|]. rewrite w_hist_cons.
    destruct i as [|i]; simpl in *; [|by eapply IH].
    injection Hi as ->. by rewrite bool_decide_eq_true_2.
  - assert (∀ i x, w !! i = Some x → ¬ (0 < x)%Qc →
              w_hist w !! i = Some floor_value) as Hfloor.
    { induction w as [|y w IH]; intros i x Hi Hx; [done|]. rewrite w_hist_cons.
      destruct i as [|i]; simpl in *; [|by eapply IH].
      injection Hi as ->. by rewrite bool_decide_eq_false_2 by done. }
    intros i x Hi Hx. split; [by eapply Hfloor|].
    rewrite bins_edges. by eapply Hfloor.
Qed.

(** X9.  What the histogram shows.  There are ten bars.  The first one counts
    the eigenvalues that are zero or negative together with those from
    [1e-10] up to [1e-9]; an eigenvalue above 1, or a positive one below
    [1e-10], reaches the histogram unchanged and is counted by no bar. *)
Theorem hist_first_bar_and_dropped (w : list Qc) :
  length (plt_hist (w_hist w) bins) = 10 ∧
  plt_hist (w_hist w) bins !! 0 =
    Some (length (filter (λ x, (x ≤ 0)%Qc ∨
                               (Q2Qc (1 # 10000000000) ≤ x)%Qc ∧
                               (x < Q2Qc (1 # 1000000000))%Qc) w)) ∧
  (∀ i x, w !! i = Some x →
     (1 < x)%Qc ∨ (0 < x)%Qc ∧ (x < Q2Qc (1 # 10000000000))%Qc →
     w_hist w !! i = Some x ∧ ∀ k, in_bin bins k x = false).
Proof.
  split_and!.
  - unfold plt_hist. rewrite length_map, length_seq. by rewrite bins_edges.
  - unfold plt_hist. replace (length bins - 1) with 10 by (by rewrite bins_edges).
    cbn [seq map lookup list_lookup]. f_equal.
    induction w as [|x w IH]; [done|]. rewrite w_hist_cons.
    rewrite !filter_cons.
    destruct (decide (in_bin bins 0 _ = true)) as [Hin|Hin];
      destruct (decide (_ ∨ _)) as [Hp|Hp]; simpl; rewrite ?IH; try done;
      exfalso; [by apply Hp, first_bar_counts|by apply Hin, first_bar_counts].
  - intros i x Hi Hx.
    assert (0 < x)%Qc as Hpos.
    { destruct Hx as [Hx|[Hx _]]; [|done].
      eapply Qclt_trans; [|exact Hx]. by vm_compute. }
    split; [by apply (w_hist_positive w)|]. intros k.
    destruct Hx as [Hx|[_ Hx]]; [by apply in_bin_above|by apply in_bin_below].
Qed.

End Histogram.

(** ** Building the reparametrized model *)

(** X10.  Which layer the custom layer freezes.  The construction of [model_c]
    goes through exactly when [x_star] has at least two entries, the one
    before the last holds a kernel of at least two dimensions [m], [n] and
    a bias, and the direction vectors have [k · m · n] entries for their
    [k] rows; the custom layer then sits at position 2 and holds the kernel
    and bias of the layer before the last of [x_star], which is position 2
    when the model has four layers. *)
Theorem model_c_layers_frozen_layer (x_star : list (list (tensor Qc)))
    (direction_vectors : tensor Qc) (layers : list (layer Qc)) :
  model_c_layers x_star direction_vectors = Some layers ↔
  ∃ ws w b k m n dims dims',
    2 ≤ length x_star ∧
    x_star !! (length x_star - 2) = Some ws ∧
    ws !! 0 = Some w ∧ ws !! 1 = Some b ∧
    shape direction_vectors = k :: dims ∧ shape w = m :: n :: dims' ∧
    length (data direction_vectors) = k * (m * n) ∧
    layers = [ Flatten; Dense 16 (Some relu) None;
               CustomLayer (w, b) (Tensor [k; m; n] (data direction_vectors))
                 None None;
               Dense 10 None None ].
Proof.
  assert (py_index x_star (-2) =
            if decide (2 ≤ length x_star) then x_star !! (length x_star - 2)
            else None) as Hidx.
  { unfold py_index, np_index. rewrite decide_False by lia.
    case_decide; case_decide; try lia; simpl; [|done].
    f_equal. lia. }
  assert (∀ ws : list (tensor Qc), py_index ws 0 = ws !! 0) as Hidx0.
  { intros ws. unfold py_index, np_index. destruct ws as [|w0 ws]; [done|].
    rewrite decide_True by (simpl; lia). done. }
  assert (∀ ws : list (tensor Qc), py_index ws 1 = ws !! 1) as Hidx1.
  { intros ws. unfold py_index, np_index. destruct ws as [|w0 [|w1 ws]]; [done|done|].
    rewrite decide_True by (simpl; lia). done. }
  unfold model_c_layers. rewrite Hidx. split.
  - case_decide as Hlen; [|done].
    destruct (x_star !! (length x_star - 2)) as [ws|] eqn:Hws; [|done]. simpl.
    rewrite Hidx0, Hidx1.
    destruct (ws !! 0) as [w|] eqn:Hw; [|done]. simpl.
    destruct (ws !! 1) as [b|] eqn:Hb; [|done]. simpl.
    unfold CustomLayer_init, tf_reshape. cbn [fst].
    destruct (shape direction_vectors) as [|k dims] eqn:Hsd; [done|].
    destruct (shape w) as [|m [|n dims']] eqn:Hsw; [done|done|].
    case_decide as Hnum; [|done]. simpl. intros [= <-].
    exists ws, w, b, k, m, n, dims, dims'.
    split_and!; [done..| |done].
    rewrite <- Hnum. cbn [numel foldr]. lia.
  - intros (ws & w & b & k & m & n & dims & dims' & Hlen & Hws & Hw & Hb & Hsd & Hsw
            & Hnum & ->).
    rewrite decide_True by done. rewrite Hws. simpl.
    rewrite Hidx0, Hidx1, Hw, Hb. simpl.
    unfold CustomLayer_init, tf_reshape. cbn [fst]. rewrite Hsd, Hsw.
    rewrite decide_True; [done|]. rewrite Hnum. cbn [numel foldr]. lia.
Qed.

Lemma get_weights_set_weights {F} `{Scalar F} (l l' : layer F) ws :
  set_weights l ws = Some l' →
  get_weights l' = ws ∧ map shape ws = map shape (get_weights l).
Proof.
  destruct l as [|u act [[kernel bias]|]|xs d act [kernel|]];
    destruct ws as [|w1 [|w2 [|w3 ws]]]; simpl; try done.
  - by intros [= <-].
  - case_decide as Hs; [|done]. intros [= <-]. simpl.
    destruct Hs as [-> ->]. done.
  - by intros [= <-].
  - case_decide as Hs; [|done]. intros [= <-]. simpl. by rewrite Hs.
  - by intros [= <-].
Qed.

Lemma set_layer_weights_lookup {F} `{Scalar F} (model model' : list (layer F)) k ws :
  set_layer_weights model k ws = Some model' →
  length model' = length model ∧
  get_weights <$> model' !! k = Some ws ∧
  ∀ j, j ≠ k → model' !! j = model !! j.
Proof.
  unfold set_layer_weights.
  destruct (model !! k) as [l|] eqn:Hl; [|done]. simpl.
  destruct (set_weights l ws) as [l'|] eqn:Hset; [|done]. simpl.
  intros [= <-]. apply lookup_lt_Some in Hl as Hk.
  split_and!.
  - by rewrite length_insert.
  - rewrite list_lookup_insert_eq by done. simpl.
    by destruct (get_weights_set_weights l l' ws Hset) as [-> _].
  - intros j Hj. by rewrite list_lookup_insert_ne.
Qed.

(** X11.  The loop that copies [x_star] into a model.  If it completes, the
    model has as many layers as before, each layer it visited holds the
    weights [x_star] lists for it, and the layers it did not visit (the
    custom layer, in the notebook) are left exactly as they were. *)
Theorem assign_weights_frame (x_star : list (list (tensor Qc))) (ks : list nat)
    (model model' : list (layer Qc)) :
  assign_weights x_star ks model = Some model' →
  length model' = length model ∧
  (∀ k, k ∈ ks →
     is_Some (x_star !! k) ∧ get_weights <$> model' !! k = x_star !! k) ∧
  (∀ k, k ∉ ks → model' !! k = model !! k).
Proof.
  revert model. induction ks as [|k0 ks IH]; intros model; simpl.
  - intros [= <-]. split_and!; [done| |done]. intros k Hk. by apply elem_of_nil in Hk.
  - destruct (x_star !! k0) as [ws|] eqn:Hws; [|done]. simpl.
    destruct (set_layer_weights model k0 ws) as [model1|] eqn:Hset; [|done]. simpl.
    intros Hrest. destruct (IH model1 Hrest) as (Hlen & Hin & Hout).
    destruct (set_layer_weights_lookup model model1 k0 ws Hset)
      as (Hlen1 & Hk0 & Hother).
    split_and!.
    + congruence.
    + intros k Hk. destruct (decide (k ∈ ks)) as [Hks|Hks]; [by apply Hin|].
      apply elem_of_cons in Hk as [->|Hk]; [|done].
      rewrite Hws. split; [by eexists|]. by rewrite (Hout k0 Hks).
    + intros k Hk. apply not_elem_of_cons in Hk as [Hne Hks].
      rewrite (Hout k Hks). by apply Hother.
Qed.

Lemma assign_weights_frame_witness :
  ∃ model',
    assign_weights (x_star_of ex_model) [0; 1; 3]
      [Flatten; Dense 16 (Some relu) (Some (ex_k1, ex_b2));
       CustomLayer (ex_k2, ex_b2) ex_directions None None;
       Dense 10 None (Some (ex_k3, ex_b3))] = Some model' ∧
    get_weights <$> model' !! 1 = x_star_of ex_model !! 1 ∧
    model' !! 2 = Some (CustomLayer (ex_k2, ex_b2) ex_directions None None).
Proof.
  eexists.
  eassert (assign_weights (x_star_of ex_model) [0; 1; 3] _ = Some _) as Ha;
    [|split; [exact Ha|]].
  - vm_compute. reflexivity.
  - destruct (assign_weights_frame _ _ _ _ Ha) as (_ & Hin & Hout).
    split.
    + apply Hin. apply list_elem_of_lookup. by exists 1.
    + rewrite Hout; [done|]. intros Hk.
      apply list_elem_of_lookup in Hk as [[|[|[|i]]] Hi]; done.
Defined.

(** X12.  [model_c] has to be built on examples with as many entries as those
    [model] was trained on: otherwise the first kernel it creates has another
    shape than the trained one, and [set_weights] raises. *)
Theorem make_model_c_needs_same_input_size
    (k1 b1 k2 b2 k3 b3 direction_vectors features : tensor Qc)
    (d n : nat) (dims : list nat) (init : nat → nat → Qc) :
  fitted_shapes d k1 b1 k2 b2 k3 b3 →
  shape direction_vectors = [2; 256] → well_shaped direction_vectors →
  shape features = n :: dims →
  let x_star := x_star_of (fitted_model k1 b1 k2 b2 k3 b3) in
  (numel dims ≠ d → make_model_c init x_star direction_vectors features = None) ∧
  (numel dims = d →
     make_model_c init x_star direction_vectors features =
       Some (model_c_at k1 b1 k2 b2 k3 b3 direction_vectors None (tf_zeros [2]))).
Proof.
  intros Hfit Hdirs Hdata Hfeatures x_star. split; [|intros Hd; by eapply make_model_c_fitted].
  intros Hne. unfold make_model_c, x_star.
  rewrite (model_c_layers_fitted k1 b1 k2 b2 k3 b3 d Hfit direction_vectors Hdirs Hdata).
  cbn [mbind option_bind].
  pose proof Hfit as (Hk1 & Hb1 & Hk2 & Hb2 & Hk3 & Hb3 & _).
  unfold first_call. cbn [first_call_from build mbind option_bind].
  rewrite (call_Flatten features n dims Hfeatures).
  cbn [mbind option_bind shape].
  change (2 * 1) with 2. change (2 + 1) with 3. change (2 * 2) with 4.
  destruct (call_Dense_shape 16 (Some relu) (fresh init 2 [numel dims; 16])
              (fresh init 3 [16]) (Tensor [n; numel dims] (data features))
              n (numel dims) 16) as (y1 & Hy1 & Hs1); [done..|].
  rewrite Hy1. cbn [mbind option_bind hd shape].
  destruct (call_CustomLayer_shape k2 b2 (Tensor [2; 16; 16] (data direction_vectors))
              None (fresh init 4 [2]) y1 n 16 16 2) as (y2 & Hy2 & Hs2); [done..|].
  rewrite Hy2. cbn [mbind option_bind]. rewrite Hs2. cbn [mbind option_bind].
  change (2 * 3) with 6. change (6 + 1) with 7.
  destruct (call_Dense_shape 10 None (fresh init 6 [16; 10])
              (fresh init 7 [10]) y2 n 16 10) as (y3 & Hy3 & Hs3); [done..|].
  rewrite Hy3. cbn [mbind option_bind length].
  change (filter (λ i, i ≠ nb_layer) (seq 0 4)) with [0; 1; 3].
  unfold x_star_of, fitted_model.
  cbn [assign_weights map get_weights lookup list_lookup mbind option_bind
       set_layer_weights set_weights shape fresh list_insert insert].
  rewrite decide_False; [done|]. rewrite Hk1. intros [[= Hd] _]. done.
Qed.

Lemma make_model_c_needs_same_input_size_witness :
  make_model_c (λ _ _, 1%Qc) (x_star_of ex_model) ex_directions
    (Tensor [1; 3] [0; 0; 0]%Qc) = None.
Proof.
  refine (proj1 (make_model_c_needs_same_input_size ex_k1 ex_b1 ex_k2 ex_b2 ex_k3 ex_b3
            ex_directions (Tensor [1; 3] [0; 0; 0]%Qc) 784 1 [3] (λ _ _, 1%Qc)
            ex_fitted_shapes eq_refl eq_refl eq_refl) _).
  simpl. lia.
Defined.

(** X13.  Whatever pair of eigenvectors the selection step returns from the
    256 × 256 matrix of eigenvectors of the Hessian, the construction of
    [model_c] goes through: the two rows have the 256 entries the custom
    layer reshapes into two 16 × 16 matrices, and [nb_directions] is 2, the
    number of coordinates the layer creates and that are set to zero. *)
Theorem selected_directions_fit_model_c
    (k1 b1 k2 b2 k3 b3 features v direction_vectors : tensor Qc) (w : list Qc)
    (d n : nat) (dims : list nat) (init : nat → nat → Qc) :
  fitted_shapes d k1 b1 k2 b2 k3 b3 →
  shape features = n :: dims → numel dims = d →
  shape v = [256; 256] →
  select_directions w v = Some direction_vectors →
  ∃ model_c dv,
    make_model_c init (x_star_of (fitted_model k1 b1 k2 b2 k3 b3))
      direction_vectors features = Some model_c ∧
    model_c !! nb_layer =
      Some (CustomLayer (k2, b2) dv None (Some (tf_zeros [nb_directions direction_vectors]))) ∧
    shape dv = [2; 16; 16] ∧
    ∀ a i j, a < 2 → i < 16 → j < 16 →
      tget 0%Qc dv [a; i; j] = tget 0%Qc direction_vectors [a; i * 16 + j].
Proof.
  intros Hfit Hfeat Hdims Hv Hsel.
  destruct (select_directions_shape w v direction_vectors 256 Hv Hsel)
    as (Hs & Hw & Hnb).
  eexists _, _. split; [by eapply make_model_c_fitted|].
  rewrite Hnb. split; [done|]. split; [done|].
  intros a i j Ha Hi Hj. unfold tget. cbn [shape data]. rewrite Hs.
  rewrite offset_3, offset_2. f_equal.
Qed.

Lemma selected_directions_fit_model_c_witness :
  ∃ direction_vectors model_c,
    select_directions w_half (eye 256) = Some direction_vectors ∧
    make_model_c (λ _ _, 1%Qc) (x_star_of ex_model) direction_vectors ex_features
      = Some model_c.
Proof.
  eassert (select_directions w_half (eye 256) = Some _) as Hsel
    by (vm_compute; reflexivity).
  destruct (selected_directions_fit_model_c ex_k1 ex_b1 ex_k2 ex_b2 ex_k3 ex_b3
              ex_features (eye 256) _ w_half 784 1 [28; 28; 1] (λ _ _, 1%Qc)
              ex_fitted_shapes eq_refl eq_refl eq_refl Hsel)
    as (model_c & dv & Hm & _).
  eexists _, model_c. split; [exact Hsel|exact Hm].
Defined.

(** ** The reparametrized model along the directions *)

(** X14.  What the coordinates do.  When the custom layer of [model_c] is given
    the coordinates (t1, t2), [model_c] computes what the network computes
    when the kernel of its second hidden layer is moved from the frozen [W]
    to [W + t1 d1 + t2 d2], where [d1], [d2] are the two direction vectors
    read as 16 × 16 matrices, row by row, all the other weights staying
    frozen, and when that layer has no activation. *)
Theorem model_c_is_model_along_directions
    (k1 b1 k2 b2 k3 b3 direction_vectors features x : tensor Qc) (t1 t2 : Qc)
    (d n n' : nat) (dims dims' : list nat) (init : nat → nat → Qc) :
  fitted_shapes d k1 b1 k2 b2 k3 b3 →
  shape direction_vectors = [2; 256] → well_shaped direction_vectors →
  shape features = n :: dims → numel dims = d →
  shape x = n' :: dims' → numel dims' = d →
  ∃ model_c model_t W,
    make_model_c init (x_star_of (fitted_model k1 b1 k2 b2 k3 b3))
      direction_vectors features = Some model_c ∧
    set_layer_weights model_c nb_layer [Tensor [2] [t1; t2]] = Some model_t ∧
    shape W = [16; 16] ∧ well_shaped W ∧
    (∀ i j, i < 16 → j < 16 →
       tget 0%Qc W [i; j] =
         (tget 0 k2 [i; j] +
          (t1 * tget 0 direction_vectors [0%nat; (i * 16 + j)%nat] +
           t2 * tget 0 direction_vectors [1%nat; (i * 16 + j)%nat]))%Qc) ∧
    call_model model_t x =
    call_model [ Flatten;
                 Dense 16 (Some relu) (Some (k1, b1));
                 Dense 16 None (Some (W, b2));
                 Dense 10 None (Some (k3, b3)) ] x.
Proof.
  intros Hfit Hdirs Hdata Hfeat Hdims Hx Hdims'.
  pose proof Hfit as (Hk1 & Hb1 & Hk2 & Hb2 & Hk3 & Hb3 & _ & _ & Hw2 & _).
  set (D := Tensor [2; 16; 16] (data direction_vectors)).
  set (t := Tensor [2] [t1; t2]).
  pose proof (tf_tensordot_stack t D 2 16 16 eq_refl eq_refl) as Hdot.
  set (T := Tensor [16; 16] _) in Hdot.
  exists (model_c_at k1 b1 k2 b2 k3 b3 direction_vectors None (tf_zeros [2])),
    (model_c_at k1 b1 k2 b2 k3 b3 direction_vectors None t),
    (Tensor [16; 16] (zip_with sadd (data k2) (data T))).
  assert (length (data k2) = 256) as Hlen.
  { unfold well_shaped in Hw2. by rewrite Hw2, Hk2. }
  assert (length (data T) = 256) as HlenT.
  { unfold T. cbn [data]. by rewrite length_tabulate2. }
  split_and!.
  - by eapply make_model_c_fitted.
  - done.
  - done.
  - unfold well_shaped. cbn [shape data numel foldr].
    rewrite length_zip_with, Hlen, HlenT. done.
  - intros i j Hi Hj. unfold tget. cbn [shape data]. rewrite Hk2, Hdirs.
    rewrite !offset_2.
    assert (i * 16 + j < 256) as Hij by lia.
    rewrite (nth_zip_with _ _ _ _ 0%Qc 0%Qc) by lia.
    cbn [sadd Qc_scalar]. f_equal.
    unfold T. cbn [data].
    replace (i * 16 + j) with (0 * (16 * 16) + (i * 16 + j)) at 1 by lia.
    rewrite nth_tabulate2 by lia.
    cbn [seq map ssum foldr tnth data nth sadd smul sconst Qc_scalar t D].
    replace (0 * 1 + 0) with 0 by lia. replace (1 * 1 + 0) with 1 by lia.
    cbn [nth].
    replace (0 * (16 * 16) + (i * 16 + j)) with (0 * 256 + (i * 16 + j)) by lia.
    replace (1 * (16 * 16) + (i * 16 + j)) with (1 * 256 + (i * 16 + j)) by lia.
    ring.
  - unfold model_c_at. fold D t. cbn [call_model].
    destruct (call Flatten x) as [x'|]; [|done]. cbn [mbind option_bind].
    destruct (call (Dense 16 (Some relu) (Some (k1, b1))) x') as [h|]; [|done].
    cbn [mbind option_bind call fst snd].
    rewrite Hdot. cbn [mbind option_bind].
    rewrite tf_add_same by (by rewrite Hk2). cbn [mbind option_bind].
    by rewrite Hk2.
Qed.

Lemma model_c_is_model_along_directions_witness :
  ∃ model_c model_t W,
    make_model_c (λ _ _, 1%Qc) (x_star_of ex_model) ex_directions ex_features
      = Some model_c ∧
    set_layer_weights model_c nb_layer [Tensor [2] [1; 1]%Qc] = Some model_t ∧
    shape W = [16; 16] ∧
    call_model model_t ex_features =
    call_model [ Flatten;
                 Dense 16 (Some relu) (Some (ex_k1, ex_b1));
                 Dense 16 None (Some (W, ex_b2));
                 Dense 10 None (Some (ex_k3, ex_b3)) ] ex_features.
Proof.
  destruct (model_c_is_model_along_directions ex_k1 ex_b1 ex_k2 ex_b2 ex_k3 ex_b3
              ex_directions ex_features ex_features 1 1 784 1 1
              [28; 28; 1] [28; 28; 1] (λ _ _, 1%Qc)
              ex_fitted_shapes eq_refl eq_refl eq_refl eq_refl eq_refl eq_refl)
    as (model_c & model_t & W & Hm & Hset & Hs & _ & _ & Hc).
  exists model_c, model_t, W. split_and!; assumption.
Defined.

(** ** When the missing activation does not show *)

Lemma map_Qc_relu_nonneg (l : list Qc) :
  Forall (λ x, (0 ≤ x)%Qc) l → map Qc_relu l = l.
Proof.
  induction 1 as [|x l Hx _ IH]; simpl; [done|]. rewrite IH. f_equal.
  unfold Qc_relu. case_bool_decide as Hpos; [done|].
  apply Qcle_antisym; [done|]. by apply Qcnot_lt_le.
Qed.

Lemma call_Dense_relu_nonneg u (w b x z : tensor Qc) :
  call (Dense u None (Some (w, b))) x = Some z →
  Forall (λ x, (0 ≤ x)%Qc) (data z) →
  call (Dense u (Some relu) (Some (w, b))) x = Some z.
Proof.
  cbn [call]. destruct (tf_matmul x w) as [y|]; [|done]. cbn [mbind option_bind].
  destruct (tf_add y b) as [out|]; [|done]. cbn [mbind option_bind apply_activation].
  intros [= <-] Hpos. f_equal. unfold tmap. cbn [srelu Qc_scalar].
  rewrite map_Qc_relu_nonneg by done. by destruct out.
Qed.

(** X15.  The custom layer has no activation where the layer it replaces has
    [relu].  On a batch where no unit of that layer is negative before the
    activation, this makes no difference: [model_c], with its coordinates
    at (0, 0) as the notebook leaves them, returns what [model] returns. *)
Theorem model_c_agrees_without_negative_units
    (k1 b1 k2 b2 k3 b3 direction_vectors features x h z : tensor Qc)
    (d n n' : nat) (dims dims' : list nat) (init : nat → nat → Qc) :
  fitted_shapes d k1 b1 k2 b2 k3 b3 →
  shape direction_vectors = [2; 256] → well_shaped direction_vectors →
  shape features = n :: dims → numel dims = d →
  shape x = n' :: dims' → numel dims' = d →
  call_model [Flatten; Dense 16 (Some relu) (Some (k1, b1))] x = Some h →
  call (Dense 16 None (Some (k2, b2))) h = Some z →
  Forall (λ u, (0 ≤ u)%Qc) (data z) →
  ∃ model_c,
    make_model_c init (x_star_of (fitted_model k1 b1 k2 b2 k3 b3))
      direction_vectors features = Some model_c ∧
    call_model model_c x = call_model (fitted_model k1 b1 k2 b2 k3 b3) x.
Proof.
  intros Hfit Hdirs Hdata Hfeat Hdims Hx Hdims' Hh Hz Hpos.
  exists (model_c_at k1 b1 k2 b2 k3 b3 direction_vectors None (tf_zeros [2])).
  split; [by eapply make_model_c_fitted|].
  rewrite (model_c_at_zero k1 b1 k2 b2 k3 b3 direction_vectors x d n' dims' None)
    by done.
  unfold fitted_model. cbn [call_model] in *.
  destruct (call Flatten x) as [x'|]; [|done]. cbn [mbind option_bind] in *.
  destruct (call (Dense 16 (Some relu) (Some (k1, b1))) x') as [h'|]; [|done].
  cbn [mbind option_bind] in *. injection Hh as ->.
  by rewrite Hz, (call_Dense_relu_nonneg 16 k2 b2 h z Hz Hpos).
Qed.

Lemma model_c_agrees_without_negative_units_witness :
  ∃ model_c,
    make_model_c (λ _ _, 1%Qc)
      (x_star_of (fitted_model ex_k1 ex_b1 (const_tensor [16; 16] 1%Qc) ex_b2 ex_k3 ex_b3))
      ex_directions ex_features = Some model_c ∧
    call_model model_c ex_features
    = call_model
        (fitted_model ex_k1 ex_b1 (const_tensor [16; 16] 1%Qc) ex_b2 ex_k3 ex_b3)
        ex_features.
Proof.
  eassert (call_model [Flatten; Dense 16 (Some relu) (Some (ex_k1, ex_b1))]
             ex_features = Some _) as Hh by (vm_compute; reflexivity).
  match type of Hh with
  | _ = Some ?h =>
      eassert (call (Dense 16 None (Some (const_tensor [16; 16] 1%Qc, ex_b2))) h
               = Some _) as Hz by (vm_compute; reflexivity)
  end.
  assert (fitted_shapes 784 ex_k1 ex_b1 (const_tensor [16; 16] 1%Qc) ex_b2 ex_k3 ex_b3)
    as Hfit by (repeat split; reflexivity).
  refine (model_c_agrees_without_negative_units ex_k1 ex_b1
            (const_tensor [16; 16] 1%Qc) ex_b2 ex_k3 ex_b3 ex_directions
            ex_features ex_features _ _ 784 1 1 [28; 28; 1] [28; 28; 1] (λ _ _, 1%Qc)
            Hfit eq_refl eq_refl eq_refl eq_refl eq_refl eq_refl Hh Hz _).
  cbn [data]. repeat constructor; by vm_compute.
Defined.

(** ** Symmetry of the derivative tensors *)

Section HigherDerivatives.
Variables fexp flog : Qc → Qc.
Variable ρ : nat → nat → Qc.

(** Exchanging the two innermost derivatives under a third one. *)
Lemma deriv3_comm (e : expr) (x y z : nat * nat) :
  eval fexp flog ρ (deriv (deriv (deriv e x) y) z) = eval fexp flog ρ (deriv (deriv (deriv e y) x) z).
Proof.
  induction e as [c|v p|a IHa b IHb|a IHa b IHb|a IHa|a IHa|a IHa|a IHa|a IHa];
    cbn [deriv eval].
  - done.
  - by repeat case_decide.
  - by rewrite IHa, IHb.
  - rewrite IHa, IHb, (deriv_comm fexp flog ρ a y x), (deriv_comm fexp flog ρ b y x).
    ring.
  - rewrite IHa, (deriv_comm fexp flog ρ a y x). ring.
  - done.
  - rewrite IHa, (deriv_comm fexp flog ρ a y x). ring.
  - rewrite IHa, (deriv_comm fexp flog ρ a y x). ring.
  - rewrite IHa, (deriv_comm fexp flog ρ a y x). ring.
Qed.

(** And under two more. *)
Lemma deriv4_comm (e : expr) (x y z u : nat * nat) :
  eval fexp flog ρ (deriv (deriv (deriv (deriv e x) y) z) u) =
  eval fexp flog ρ (deriv (deriv (deriv (deriv e y) x) z) u).
Proof.
  induction e as [c|v p|a IHa b IHb|a IHa b IHb|a IHa|a IHa|a IHa|a IHa|a IHa];
    cbn [deriv eval].
  - done.
  - by repeat case_decide.
  - by rewrite IHa, IHb.
  - rewrite IHa, IHb,
      (deriv_comm fexp flog ρ a y x), (deriv_comm fexp flog ρ b y x),
      (deriv3_comm a y x z), (deriv3_comm b y x z),
      (deriv3_comm a y x u), (deriv3_comm b y x u).
    ring.
  - rewrite IHa, (deriv_comm fexp flog ρ a y x),
      (deriv3_comm a y x z), (deriv3_comm a y x u). ring.
  - done.
  - rewrite IHa, (deriv_comm fexp flog ρ a y x),
      (deriv3_comm a y x z), (deriv3_comm a y x u). ring.
  - rewrite IHa, (deriv_comm fexp flog ρ a y x),
      (deriv3_comm a y x z), (deriv3_comm a y x u). ring.
  - rewrite IHa, (deriv_comm fexp flog ρ a y x),
      (deriv3_comm a y x z), (deriv3_comm a y x u). ring.
Qed.

End HigherDerivatives.




Lemma T2_compute_model_c (fexp flog : Qc → Qc)
    (k1 b1 k2 b2 k3 b3 direction_vectors features : tensor Qc)
    (labels : list nat) (act : option activation) L :
  let model_c := model_c_at k1 b1 k2 b2 k3 b3 direction_vectors act (tf_zeros [2]) in
  let t := Tensor [2] [Var 2 0; Var 2 1] in
  loss (watch model_c) (tconst features) labels = Some L →
  T2_compute fexp flog model_c features labels (-3) =
    Some (tmap (eval fexp flog (env_of model_c)) (jacobian (gradient L t) t)).
Proof.
  intros model_c t HL. unfold T2_compute. fold model_c. rewrite HL.
  cbn [mbind option_bind].
  change (py_index (trainable_variables (watch model_c)) (-3)) with (Some t).
  done.
Qed.

(** X16.  The three tensors [T4_compute] returns on [model_c] are symmetric:
    exchanging two neighbouring indices of an entry, hence permuting its
    indices in any way, does not change it; and the tensor of order two is
    the one [T2_compute] returns on the same arguments. *)
Theorem T4_compute_tensors_symmetric (fexp flog : Qc → Qc)
    (k1 b1 k2 b2 k3 b3 direction_vectors features : tensor Qc) (labels : list nat)
    (d n : nat) (dims : list nat) (init : nat → nat → Qc) :
  fitted_shapes d k1 b1 k2 b2 k3 b3 →
  shape direction_vectors = [2; 256] → well_shaped direction_vectors →
  shape features = n :: dims → numel dims = d → length labels = n →
  ∃ model_c T2 T3 T4,
    make_model_c init (x_star_of (fitted_model k1 b1 k2 b2 k3 b3))
      direction_vectors features = Some model_c ∧
    T4_compute fexp flog model_c features labels (-3) = Some (T2, T3, T4) ∧
    T2_compute fexp flog model_c features labels (-3) = Some T2 ∧
    (∀ i j, i < 2 → j < 2 → tget 0%Qc T2 [i; j] = tget 0%Qc T2 [j; i]) ∧
    (∀ i j k, i < 2 → j < 2 → k < 2 →
       tget 0%Qc T3 [i; j; k] = tget 0%Qc T3 [j; i; k] ∧
       tget 0%Qc T3 [i; j; k] = tget 0%Qc T3 [i; k; j]) ∧
    (∀ i j k l, i < 2 → j < 2 → k < 2 → l < 2 →
       tget 0%Qc T4 [i; j; k; l] = tget 0%Qc T4 [j; i; k; l] ∧
       tget 0%Qc T4 [i; j; k; l] = tget 0%Qc T4 [i; k; j; l] ∧
       tget 0%Qc T4 [i; j; k; l] = tget 0%Qc T4 [i; j; l; k]).
Proof.
  intros Hfit Hdirs Hdata Hfeat Hdims Hlab.
  destruct (loss_model_c_recorded k1 b1 k2 b2 k3 b3 d Hfit direction_vectors
              features labels n dims Hfeat Hdims Hlab None) as [L HL].
  exists (model_c_at k1 b1 k2 b2 k3 b3 direction_vectors None (tf_zeros [2])).
  eexists _, _, _.
  split; [by eapply make_model_c_fitted|].
  split; [by apply T4_compute_model_c|].
  split; [by apply T2_compute_model_c|].
  pose proof (T4_entries k1 b1 k2 b2 k3 b3 direction_vectors None fexp flog L)
    as Hent.
  split_and!.
  - intros i j Hi Hj.
    destruct (Hent i j 0 0) as (-> & _); [lia..|].
    destruct (Hent j i 0 0) as (-> & _); [lia..|].
    apply deriv_comm.
  - intros i j k Hi Hj Hk.
    destruct (Hent i j k 0) as (_ & -> & _); [lia..|].
    destruct (Hent j i k 0) as (_ & -> & _); [lia..|].
    destruct (Hent i k j 0) as (_ & -> & _); [lia..|].
    split; [apply deriv3_comm|apply deriv_comm].
  - intros i j k l Hi Hj Hk Hl.
    destruct (Hent i j k l) as (_ & _ & ->); [lia..|].
    destruct (Hent j i k l) as (_ & _ & ->); [lia..|].
    destruct (Hent i k j l) as (_ & _ & ->); [lia..|].
    destruct (Hent i j l k) as (_ & _ & ->); [lia..|].
    split_and!; [apply deriv4_comm|apply deriv3_comm|apply deriv_comm].
Qed.

Lemma T4_compute_tensors_symmetric_witness :
  ∃ model_c T2 T3 T4,
    make_model_c (λ _ _, 1%Qc) (x_star_of ex_model) ex_directions ex_features
      = Some model_c ∧
    T4_compute (λ x, x) (λ x, x) model_c ex_features ex_labels (-3)
      = Some (T2, T3, T4) ∧
    tget 0%Qc T3 [0; 1; 1] = tget 0%Qc T3 [1; 0; 1] ∧
    tget 0%Qc T4 [0; 1; 1; 1] = tget 0%Qc T4 [1; 1; 0; 1].
Proof.
  destruct (T4_compute_tensors_symmetric (λ x, x) (λ x, x)
              ex_k1 ex_b1 ex_k2 ex_b2 ex_k3 ex_b3
              ex_directions ex_features ex_labels 784 1 [28; 28; 1] (λ _ _, 1%Qc)
              ex_fitted_shapes eq_refl eq_refl eq_refl eq_refl eq_refl)
    as (model_c & T2 & T3 & T4 & Hm & HT & _ & _ & H3 & H4).
  exists model_c, T2, T3, T4. split; [exact Hm|]. split; [exact HT|]. split.
  - apply H3; lia.
  - destruct (H4 0 1 1 1) as (-> & _); [lia..|].
    destruct (H4 1 0 1 1) as (_ & -> & _); [lia..|]. reflexivity.
Defined.



(** ** The custom layer as a replacement of the dense layer *)

Lemma ssum_zero_products (g : nat → Qc) (l : list nat) :
  ssum (map (λ k, smul 0%Qc (g k)) l) = 0%Qc.
Proof.
  induction l as [|k l IH]; [done|].
  cbn [map ssum foldr] in *. unfold ssum in IH. rewrite IH.
  cbn [sadd smul Qc_scalar]. ring.
Qed.

Lemma nth_replicate_zero (K k : nat) : nth k (replicate K 0%Qc) 0%Qc = 0%Qc.
Proof.
  revert k. induction K as [|K IH]; intros [|k]; simpl; done.
Qed.

(** X18.  The life of a custom layer with [K] directions: it is constructed
    from direction vectors that have [m · n] entries each, [m × n] being
    the shape of the frozen kernel; its first call creates the [K]
    coordinates; and once these are set to zero it computes, on every
    batch, what a dense layer holding the frozen kernel and bias computes
    with the same activation. *)
Theorem custom_layer_at_zero_is_dense
    (w b direction_vectors x : tensor Qc) (K m n r u : nat)
    (act : option activation) (init : nat → nat → Qc) (id : nat) :
  shape w = [m; n] → well_shaped w → shape b = [n] →
  shape direction_vectors = [K; m * n] → well_shaped direction_vectors →
  shape x = [r; m] →
  ∃ l built l0,
    CustomLayer_init (w, b) direction_vectors act = Some l ∧
    build init id (shape x) l = Some built ∧
    map shape (get_weights built) = [[K]] ∧
    set_weights built [tf_zeros [K]] = Some l0 ∧
    call l0 x = call (Dense u act (Some (w, b))) x.
Proof.
  intros Hw Hwd Hb Hd Hdd Hx.
  set (D := Tensor [K; m; n] (data direction_vectors)).
  exists (CustomLayer (w, b) D act None),
    (CustomLayer (w, b) D act (Some (fresh init (2 * id) [K]))),
    (CustomLayer (w, b) D act (Some (tf_zeros [K]))).
  split_and!.
  - unfold CustomLayer_init. cbn [fst]. rewrite Hd, Hw.
    rewrite tf_reshape_Some; [done|].
    unfold well_shaped in Hdd. rewrite Hdd, Hd. cbn [numel foldr]. lia.
  - done.
  - done.
  - cbn [set_weights]. by rewrite decide_True.
  - cbn [call fst snd].
    rewrite (tf_tensordot_stack _ D K m n) by done. cbn [mbind option_bind].
    rewrite tf_add_same by done. cbn [mbind option_bind].
    assert (Tensor (shape w)
              (zip_with sadd (data w)
                 (data (Tensor [m; n]
                    (tabulate2 1 (m * n) (λ α β,
                       ssum (map (λ k, smul (tnth (tf_zeros [K]) (k * 1 + α))
                                         (tnth D (k * (m * n) + β)))
                               (seq 0 K))))))) = w) as ->; [|done].
    destruct w as [sw lw]. cbn [shape data] in *. f_equal.
    unfold well_shaped in Hwd. cbn [shape data] in Hwd.
    rewrite Hw in Hwd. cbn [numel foldr] in Hwd.
    assert (length lw = m * n) as Hlen by lia.
    apply (nth_ext _ _ 0%Qc 0%Qc).
    + rewrite length_zip_with, length_tabulate2. lia.
    + intros p Hp. rewrite length_zip_with, length_tabulate2 in Hp.
      rewrite (nth_zip_with _ _ _ _ 0%Qc 0%Qc)
        by (rewrite ?length_tabulate2; lia).
      replace p with (0 * (m * n) + p) at 2 by lia.
      rewrite nth_tabulate2 by lia.
      rewrite (map_ext_in _ (λ k, smul 0%Qc (tnth D (k * (m * n) + p)))).
      * rewrite ssum_zero_products. cbn [sadd Qc_scalar]. ring.
      * intros k _. f_equal. unfold tnth, tf_zeros. cbn [data].
        apply nth_replicate_zero.
Qed.

Lemma custom_layer_at_zero_is_dense_witness :
  ∃ l0,
    set_weights
      (CustomLayer (ex_k2, ex_b2) (Tensor [2; 16; 16] (data ex_directions))
         (Some relu) (Some (fresh (λ _ _, 1%Qc) 4 [2]))) [tf_zeros [2]] = Some l0 ∧
    call l0 (const_tensor [1; 16] 1%Qc) =
      call (Dense 16 (Some relu) (Some (ex_k2, ex_b2))) (const_tensor [1; 16] 1%Qc).
Proof.
  destruct (custom_layer_at_zero_is_dense ex_k2 ex_b2 ex_directions
              (const_tensor [1; 16] 1%Qc) 2 16 16 1 16 (Some relu) (λ _ _, 1%Qc) 2
              eq_refl eq_refl eq_refl eq_refl eq_refl eq_refl)
    as (l & built & l0 & Hl & Hb & _ & Hset & Hc).
  injection Hl as <-. injection Hb as <-.
  exists l0. split; [exact Hset|exact Hc].
Defined.

(** ** Examples of a batch are treated one by one *)

Lemma dense_rows (u : nat) (act : option activation) (w b x x' out out' : tensor Qc)
    (r r' m n i i' : nat) :
  shape x = [r; m] → shape x' = [r'; m] → shape w = [m; n] → shape b = [n] →
  i < r → i' < r' →
  (∀ k, k < m → tget 0%Qc x [i; k] = tget 0%Qc x' [i'; k]) →
  call (Dense u act (Some (w, b))) x = Some out →
  call (Dense u act (Some (w, b))) x' = Some out' →
  shape out = [r; n] ∧ shape out' = [r'; n] ∧
  ∀ j, j < n → tget 0%Qc out [i; j] = tget 0%Qc out' [i'; j].
Proof.
  intros Hx Hx' Hw Hb Hi Hi' Hrow Hout Hout'.
  destruct (call_Dense_entries u act w b x r m n Hx Hw Hb) as (o & Ho & Hso & He).
  destruct (call_Dense_entries u act w b x' r' m n Hx' Hw Hb) as (o' & Ho' & Hso' & He').
  rewrite Ho in Hout. rewrite Ho' in Hout'. injection Hout as <-. injection Hout' as <-.
  split_and!; [done..|]. intros j Hj.
  rewrite (He i j Hi Hj), (He' i' j Hi' Hj). cbn zeta.
  assert (ssum (map (λ k, tget 0 x [i; k] * tget 0 w [k; j])%Qc (seq 0 m)) =
          ssum (map (λ k, tget 0 x' [i'; k] * tget 0 w [k; j])%Qc (seq 0 m))) as ->;
    [|done].
  apply ssum_ext. intros k Hk. apply in_seq in Hk. rewrite Hrow by lia. done.
Qed.

(** X19.  The model treats the examples of a batch one by one: the logits it
    returns for an example depend on the entries of that example only, not
    on the rest of the batch nor on the position of the example in it. *)
Theorem model_rows_independent
    (k1 b1 k2 b2 k3 b3 x x' : tensor Qc)
    (d n n' i i' : nat) (dims dims' : list nat) :
  fitted_shapes d k1 b1 k2 b2 k3 b3 →
  shape x = n :: dims → numel dims = d →
  shape x' = n' :: dims' → numel dims' = d →
  i < n → i' < n' →
  (∀ k, k < d → nth (i * d + k) (data x) 0%Qc = nth (i' * d + k) (data x') 0%Qc) →
  ∃ out out',
    call_model (fitted_model k1 b1 k2 b2 k3 b3) x = Some out ∧
    call_model (fitted_model k1 b1 k2 b2 k3 b3) x' = Some out' ∧
    shape out = [n; 10] ∧ shape out' = [n'; 10] ∧
    ∀ j, j < 10 → tget 0%Qc out [i; j] = tget 0%Qc out' [i'; j].
Proof.
  intros Hfit Hx Hdims Hx' Hdims' Hi Hi' Hrow.
  pose proof Hfit as (Hk1 & Hb1 & Hk2 & Hb2 & Hk3 & Hb3 & _).
  destruct (forward_fitted k1 b1 k2 b2 k3 b3 x d n dims)
    as (_ & _ & out & _ & _ & _ & _ & Hout & _); [done..|].
  destruct (forward_fitted k1 b1 k2 b2 k3 b3 x' d n' dims')
    as (_ & _ & out' & _ & _ & _ & _ & Hout' & _); [done..|].
  exists out, out'. split; [exact Hout|]. split; [exact Hout'|].
  revert Hout Hout'. unfold fitted_model. cbn [call_model].
  rewrite (call_Flatten x n dims Hx), (call_Flatten x' n' dims' Hx').
  cbn [mbind option_bind]. rewrite Hdims, Hdims'.
  set (X := Tensor [n; d] (data x)). set (X' := Tensor [n'; d] (data x')).
  destruct (call (Dense 16 (Some relu) (Some (k1, b1))) X) as [y1|] eqn:Hy1; [|done].
  destruct (call (Dense 16 (Some relu) (Some (k1, b1))) X') as [y1'|] eqn:Hy1'; [|done].
  cbn [mbind option_bind].
  destruct (call (Dense 16 (Some relu) (Some (k2, b2))) y1) as [y2|] eqn:Hy2; [|done].
  destruct (call (Dense 16 (Some relu) (Some (k2, b2))) y1') as [y2'|] eqn:Hy2'; [|done].
  cbn [mbind option_bind].
  destruct (call (Dense 10 None (Some (k3, b3))) y2) as [y3|] eqn:Hy3; [|done].
  destruct (call (Dense 10 None (Some (k3, b3))) y2') as [y3'|] eqn:Hy3'; [|done].
  cbn [mbind option_bind]. intros [= <-] [= <-].
  destruct (dense_rows 16 (Some relu) k1 b1 X X' y1 y1' n n' d 16 i i')
    as (Hs1 & Hs1' & He1); [done..| |done|done|].
  { intros k Hk. unfold tget, X, X'. cbn [shape data]. rewrite !offset_2.
    by apply Hrow. }
  destruct (dense_rows 16 (Some relu) k2 b2 y1 y1' y2 y2' n n' 16 16 i i')
    as (Hs2 & Hs2' & He2); [done..|].
  by apply (dense_rows 10 None k3 b3 y2 y2' y3 y3' n n' 16 10 i i').
Qed.

Lemma model_rows_independent_witness :
  ∃ out out',
    call_model ex_model ex_features = Some out ∧
    call_model ex_model (const_tensor [2; 28; 28; 1] 0%Qc) = Some out' ∧
    tget 0%Qc out [0; 3] = tget 0%Qc out' [1; 3].
Proof.
  destruct (model_rows_independent ex_k1 ex_b1 ex_k2 ex_b2 ex_k3 ex_b3
              ex_features (const_tensor [2; 28; 28; 1] 0%Qc) 784 1 2 0 1
              [28; 28; 1] [28; 28; 1]
              ex_fitted_shapes eq_refl eq_refl eq_refl eq_refl)
    as (out & out' & Ho & Ho' & _ & _ & Hrow).
  - lia.
  - lia.
  - intros k Hk. unfold ex_features, const_tensor. cbn [data numel foldr].
    rewrite !nth_replicate_zero. done.
  - exists out, out'. split_and!; [exact Ho|exact Ho'|apply Hrow; lia].
Defined.
